(** * Movie catalogue object model (module02): ratings, persons, movies

    A shallow embedding of [module02/movie/rating.py],
    [module02/person/person.py] and [module02/movie/movie.py], and of
    the reports of [module02/eval_02.py]: the loop that loads the
    catalogue and the options of the menu that print to the screen.
    The export to a file and the interactive loop of [main] are not
    part of the embedding.

    Conventions of the embedding

    - Python [str] values are Rocq [string]s.  The embedding covers ASCII
      text: [isspace], [lower], [upper], [int] and [strptime] below act
      on the code points below 128 as Python's do there, and say nothing
      of the others.  A property that rests on white space, on the case
      of letters or on digits is stated for strings of ASCII characters
      ([PyStr.isascii], [ascii_record], [ascii_call]).
    - Python [int] values are [Z].
    - The two class-level dictionaries [MovieRating._ratings] and
      [Person._persons] and the list objects that movies hold live in an
      explicit [world]; every function of the source that reads or writes
      them is a computation in the monad [M], which threads the world and
      may raise.  A raised exception does not undo the writes made before
      it, exactly as in Python.
    - Objects that the source compares by identity carry an [oid], the
      address they were allocated at.
    - A function that prints returns the list of the strings it prints,
      one for each call of [print]. *)

From Stdlib Require Import ZArith String Ascii List Bool Lia.
From Stdlib Require OrderedTypeEx Sorted.
From stdpp Require Import base option gmap strings list pretty.

Local Open Scope string_scope.
Local Open Scope list_scope.

(** ** Python strings *)

Module PyStr.

(** Truth value of a string: only the empty string is falsy. *)
Definition truthy (s : string) : bool :=
  match s with
  | EmptyString => false
  | String _ _ => true
  end.

(** Truth value of the result of [dict.get]: [None] and [''] are falsy. *)
Definition truthy_opt (o : option string) : bool :=
  match o with
  | None => false
  | Some s => truthy s
  end.

Definition code_point (c : ascii) : N := N_of_ascii c.

Definition between (lo hi : N) (c : ascii) : bool :=
  ((lo <=? code_point c) && (code_point c <=? hi))%N.

(** [str.isspace] on one character of ASCII: TAB..CR, FS..US and the
    space.  These are the characters that [strip] removes. *)
Definition isspace (c : ascii) : bool :=
  between 9 13 c || between 28 32 c.

Definition isdigit (c : ascii) : bool := between 48 57 c.

(** [s.isascii()]: every code point is below 128.  On such strings the
    functions of this module are the ones of Python; the properties
    that speak of white space, of letter case or of digits are stated
    for them. *)
Fixpoint isascii (s : string) : bool :=
  match s with
  | EmptyString => true
  | String c r => (code_point c <? 128)%N && isascii r
  end.

Definition digit_value (c : ascii) : Z := Z.of_N (code_point c) - 48.

Definition lower_char (c : ascii) : ascii :=
  if between 65 90 c then ascii_of_N (code_point c + 32) else c.

Definition upper_char (c : ascii) : ascii :=
  if between 97 122 c then ascii_of_N (code_point c - 32) else c.

Fixpoint map_chars (f : ascii -> ascii) (s : string) : string :=
  match s with
  | EmptyString => EmptyString
  | String c r => String (f c) (map_chars f r)
  end.

(** [s.lower()] and [s.upper()], for a string of ASCII characters. *)
Definition lower : string -> string := map_chars lower_char.
Definition upper : string -> string := map_chars upper_char.

Fixpoint lstrip (s : string) : string :=
  match s with
  | EmptyString => EmptyString
  | String c r => if isspace c then lstrip r else s
  end.

Fixpoint rstrip (s : string) : string :=
  match s with
  | EmptyString => EmptyString
  | String c r =>
      match rstrip r with
      | EmptyString => if isspace c then EmptyString else String c EmptyString
      | r' => String c r'
      end
  end.

(** [s.strip()], for a string of ASCII characters. *)
Definition strip (s : string) : string := rstrip (lstrip s).

(** [s.split(sep)] for a one-character separator: never the empty list. *)
Fixpoint split (sep : ascii) (s : string) : list string :=
  match s with
  | EmptyString => [EmptyString]
  | String c r =>
      if Ascii.eqb c sep then EmptyString :: split sep r
      else match split sep r with
           | h :: t => String c h :: t
           | [] => [String c EmptyString]
           end
  end.

(** Position of the first occurrence, as [list.index]; [None] stands
    for the [ValueError] that [index] raises. *)
Fixpoint index (l : list string) (x : string) : option nat :=
  match l with
  | [] => None
  | y :: r => if String.eqb y x then Some 0 else S <$> index r x
  end.

(** Decimal digits with single underscores between digits, as the
    integer literal grammar that [int] accepts. *)
Fixpoint digits (s : string) (acc : Z) (after_digit : bool) : option Z :=
  match s with
  | EmptyString => if after_digit then Some acc else None
  | String c r =>
      if isdigit c then digits r (10 * acc + digit_value c)%Z true
      else if Ascii.eqb c "_" then
        (if after_digit then digits r acc false else None)
      else None
  end.

(** The white space that [int] skips around the number: TAB..CR and the
    space, not the separators FS..US that [strip] removes. *)
Definition int_space (c : ascii) : bool :=
  between 9 13 c || Ascii.eqb c " ".

Fixpoint int_lstrip (s : string) : string :=
  match s with
  | EmptyString => EmptyString
  | String c r => if int_space c then int_lstrip r else s
  end.

Fixpoint int_rstrip (s : string) : string :=
  match s with
  | EmptyString => EmptyString
  | String c r =>
      match int_rstrip r with
      | EmptyString =>
          if int_space c then EmptyString else String c EmptyString
      | r' => String c r'
      end
  end.

(** The number of digits of a literal, for the limit on the conversion
    of strings ([sys.get_int_max_str_digits()], 4300 unless the
    interpreter is told otherwise): underscores do not count. *)
Fixpoint digit_count (s : string) : N :=
  match s with
  | EmptyString => 0
  | String c r => ((if isdigit c then 1 else 0) + digit_count r)%N
  end.

Definition max_str_digits : N := 4300.

Definition literal (s : string) : option Z :=
  match digits s 0 false with
  | Some z => if (digit_count s <=? max_str_digits)%N then Some z else None
  | None => None
  end.

(** [int(s)] for a string argument: the white space around the number
    is skipped, one sign is allowed, the rest is [digits], and has no
    more digits than the limit.  [None] stands for the [ValueError]. *)
Definition int (s : string) : option Z :=
  match int_rstrip (int_lstrip s) with
  | String "-" r => Z.opp <$> literal r
  | String "+" r => literal r
  | t => literal t
  end.

End PyStr.

(** ** [datetime.strptime(s, '%Y-%m-%d')]

    For a string of ASCII characters: the digits that the pattern
    matches are the ten digits of ASCII. *)

Module PyDate.
Import PyStr.
Local Open Scope Z_scope.

(** The fields of a [datetime] that the catalogue reads; a parsed date
    has its time of day at midnight. *)
Record datetime := { year : Z; month : Z; day : Z }.

Definition is_leap (y : Z) : bool :=
  (y mod 4 =? 0) && (negb (y mod 100 =? 0) || (y mod 400 =? 0)).

Definition days_in_month (y m : Z) : Z :=
  if m =? 2 then (if is_leap y then 29 else 28)
  else if (m =? 4) || (m =? 6) || (m =? 9) || (m =? 11) then 30
  else 31.

Definition take_digit (s : string) : option (Z * string) :=
  match s with
  | String c r => if isdigit c then Some (digit_value c, r) else None
  | EmptyString => None
  end.

(** [%Y]: exactly four digits. *)
Definition year4 (s : string) : option (Z * string) :=
  match take_digit s with
  | Some (a, s1) =>
      match take_digit s1 with
      | Some (b, s2) =>
          match take_digit s2 with
          | Some (c, s3) =>
              match take_digit s3 with
              | Some (d, s4) => Some (1000 * a + 100 * b + 10 * c + d, s4)
              | None => None
              end
          | None => None
          end
      | None => None
      end
  | None => None
  end.

(** Two characters [a] in [alo..ahi] and [b] in [blo..bhi], read as the
    number [10 * tens + b]. *)
Definition two (alo ahi blo bhi : N) (tens : Z) (s : string)
  : list (Z * string) :=
  match s with
  | String a (String b r) =>
      if between alo ahi a && between blo bhi b
      then [(10 * tens + digit_value b, r)] else []
  | _ => []
  end.

Definition one (lo hi : N) (s : string) : list (Z * string) :=
  match s with
  | String a r => if between lo hi a then [(digit_value a, r)] else []
  | EmptyString => []
  end.

(** [%m] is the pattern [1[0-2]|0[1-9]|[1-9]]: the ways it can match a
    prefix, in the order the matcher tries them. *)
Definition month_alts (s : string) : list (Z * string) :=
  two 49 49 48 50 1 s ++ two 48 48 49 57 0 s ++ one 49 57 s.

(** [%d] is the pattern [3[01]|[12]\d|0[1-9]|[1-9]| [1-9]]. *)
Definition day_alts (s : string) : list (Z * string) :=
  two 51 51 48 49 3 s ++ two 49 49 48 57 1 s ++ two 50 50 48 57 2 s
  ++ two 48 48 49 57 0 s ++ one 49 57 s
  ++ match s with
     | String " " r => one 49 57 r
     | _ => []
     end.

Definition expect_dash (s : string) : option string :=
  match s with
  | String "-" r => Some r
  | _ => None
  end.

(** First complete match of [-%d] after a month alternative. *)
Definition after_month (mr : Z * string) : option (Z * Z * string) :=
  match expect_dash (snd mr) with
  | Some s =>
      match day_alts s with
      | (d, rest) :: _ => Some (fst mr, d, rest)
      | [] => None
      end
  | None => None
  end.

Fixpoint first_match {A B} (f : A -> option B) (l : list A) : option B :=
  match l with
  | [] => None
  | x :: r => match f x with Some y => Some y | None => first_match f r end
  end.

(** The match of the whole pattern, then the two checks that follow
    it: no unconverted data remains, and the fields form a date. *)
Definition strptime_ymd (s : string) : option datetime :=
  match year4 s with
  | Some (y, s1) =>
      match expect_dash s1 with
      | Some s2 =>
          match first_match after_month (month_alts s2) with
          | Some (m, d, EmptyString) =>
              if (1 <=? y) && (d <=? days_in_month y m)
              then Some {| year := y; month := m; day := d |}
              else None
          | _ => None
          end
      | None => None
      end
  | None => None
  end.

End PyDate.

(** ** Exceptions and the world *)

(** The source raises [ValueError] everywhere; the [kind] records which
    of the three error kinds of the contract the raise site stands for. *)
Inductive kind := InvalidArgument | DuplicateKey | NotFound.

Inductive exn :=
| ValueError (k : kind) (msg : string)
| AttributeError (msg : string).

Inductive outcome (A : Type) :=
| Return (a : A)
| Raise (e : exn).
Arguments Return {A} a.
Arguments Raise {A} e.

Record MovieRating := {
  rating_oid : nat;
  _code : string;
  _description : string
}.

Record Person := {
  person_oid : nat;
  _full_name : string;
  _normalized_name : string
}.

Record world := {
  _ratings : gmap string MovieRating;   (* MovieRating._ratings *)
  _persons : gmap string Person;        (* Person._persons *)
  lists : gmap nat (list Person);       (* the list objects, by address *)
  next_oid : nat                        (* the next free object address *)
}.

Definition empty_world : world :=
  {| _ratings := ∅; _persons := ∅; lists := ∅; next_oid := 0 |}.

Definition M (A : Type) : Type := world -> outcome A * world.

Definition ret {A} (a : A) : M A := fun w => (Return a, w).
Definition raise {A} (e : exn) : M A := fun w => (Raise e, w).

Definition bind {A B} (c : M A) (k : A -> M B) : M B :=
  fun w =>
    match c w with
    | (Return a, w') => k a w'
    | (Raise e, w') => (Raise e, w')
    end.

(** [try: c  except ValueError: h]. *)
Definition try_except {A} (c : M A) (h : M A) : M A :=
  fun w =>
    match c w with
    | (Raise (ValueError _ _), w') => h w'
    | r => r
    end.

Declare Scope py_scope.
Delimit Scope py_scope with py.
Notation "x <- c ;; k" := (bind c (fun x => k))
  (at level 100, c at next level, right associativity) : py_scope.
Notation "c ;;; k" := (bind c (fun _ => k))
  (at level 100, right associativity) : py_scope.
Local Open Scope py_scope.

Definition read : M world := fun w => (Return w, w).
Definition write (w : world) : M unit := fun _ => (Return tt, w).

(** [k in d] for a dictionary. *)
Definition contains {V} (d : gmap string V) (k : string) : bool :=
  match d !! k with
  | Some _ => true
  | None => false
  end.

(** A new object: its address is taken from the counter. *)
Definition alloc : M nat :=
  fun w =>
    (Return (next_oid w),
     {| _ratings := _ratings w; _persons := _persons w; lists := lists w;
        next_oid := S (next_oid w) |}).

Definition set_rating (c : string) (r : MovieRating) : M unit :=
  fun w =>
    (Return tt,
     {| _ratings := <[c := r]> (_ratings w); _persons := _persons w;
        lists := lists w; next_oid := next_oid w |}).

Definition set_person (k : string) (p : Person) : M unit :=
  fun w =>
    (Return tt,
     {| _ratings := _ratings w; _persons := <[k := p]> (_persons w);
        lists := lists w; next_oid := next_oid w |}).

(** ** [module02/movie/rating.py] *)

Definition _rating_order : list string :=
  ["NR"; "G"; "PG"; "PG-13"; "R"; "NC17"].

(** [MovieRating(code, description)]: allocation, then [__init__]. *)
Definition MovieRating_init (code description : string) : M MovieRating :=
  a <- alloc ;;
  if negb (PyStr.truthy code) || negb (PyStr.truthy description) then
    raise (ValueError InvalidArgument "Code and description cannot be empty")
  else
    let self := {| rating_oid := a; _code := code;
                   _description := description |} in
    w <- read ;;
    if contains (_ratings w) code then
      raise (ValueError DuplicateKey
               ("Rating with code '" ++ code ++ "' already exists"))
    else
      set_rating code self ;;; ret self.

Definition code (r : MovieRating) : string := _code r.
Definition description (r : MovieRating) : string := _description r.

Module Rating.

(** [__eq__] *)
Definition eq (self other : MovieRating) : bool :=
  String.eqb (code self) (code other).

(** [__lt__]: the [try] block yields a result only when both
    [index] calls succeed; the [except] branch compares the codes as
    strings. *)
Definition lt (self other : MovieRating) : bool :=
  match PyStr.index _rating_order (code self) with
  | Some self_index =>
      match PyStr.index _rating_order (code other) with
      | Some other_index => Nat.ltb self_index other_index
      | None => String.ltb (code self) (code other)
      end
  | None => String.ltb (code self) (code other)
  end.

(** [__le__] *)
Definition le (self other : MovieRating) : bool :=
  lt self other || eq self other.

(** [__gt__] *)
Definition gt (self other : MovieRating) : bool :=
  negb (le self other).

(** [__ge__] *)
Definition ge (self other : MovieRating) : bool :=
  negb (lt self other).

End Rating.

Definition get_rating (code : string) : M MovieRating :=
  w <- read ;;
  match _ratings w !! code with
  | None =>
      raise (ValueError NotFound
               ("Rating with code '" ++ code ++ "' does not exist"))
  | Some r => ret r
  end.

(** The six module-level assignments, run when the module is imported. *)
Definition rating_module
  : M (MovieRating * MovieRating * MovieRating
       * MovieRating * MovieRating * MovieRating) :=
  nr <- MovieRating_init "NR" "Not Rated" ;;
  g <- MovieRating_init "G" "General Audiences" ;;
  pg <- MovieRating_init "PG" "Parental Guidance Suggested" ;;
  pg13 <- MovieRating_init "PG-13" "Parents Strongly Cautioned" ;;
  r <- MovieRating_init "R" "Restricted" ;;
  nc17 <- MovieRating_init "NC-17" "Adults Only" ;;
  ret (nr, g, pg, pg13, r, nc17).

(** The world once the modules are imported. *)
Definition world0 : world := snd (rating_module empty_world).

Definition NR : MovieRating :=
  {| rating_oid := 0; _code := "NR"; _description := "Not Rated" |}.
Definition G : MovieRating :=
  {| rating_oid := 1; _code := "G"; _description := "General Audiences" |}.
Definition PG : MovieRating :=
  {| rating_oid := 2; _code := "PG";
     _description := "Parental Guidance Suggested" |}.
Definition PG13 : MovieRating :=
  {| rating_oid := 3; _code := "PG-13";
     _description := "Parents Strongly Cautioned" |}.
Definition R : MovieRating :=
  {| rating_oid := 4; _code := "R"; _description := "Restricted" |}.
Definition NC17 : MovieRating :=
  {| rating_oid := 5; _code := "NC-17"; _description := "Adults Only" |}.

(** The six predefined instances, in the order of the contract. *)
Definition standard_ratings : list MovieRating := [NR; G; PG; PG13; R; NC17].

(** ** [module02/person/person.py] *)

Definition full_name (p : Person) : string := _full_name p.

(** [Person(full_name)]: allocation, then [__init__]. *)
Definition Person_init (full_name : string) : M Person :=
  a <- alloc ;;
  if negb (PyStr.truthy full_name)
     || negb (PyStr.truthy (PyStr.strip full_name)) then
    raise (ValueError InvalidArgument "Full name cannot be empty")
  else
    let stripped := PyStr.strip full_name in
    let self := {| person_oid := a; _full_name := stripped;
                   _normalized_name := PyStr.lower stripped |} in
    w <- read ;;
    match _persons w !! _normalized_name self with
    | Some existing =>
        raise (ValueError DuplicateKey
                 ("Person with name '" ++ full_name
                  ++ "' already exists (existing: '"
                  ++ _full_name existing ++ "')"))
    | None => set_person (_normalized_name self) self ;;; ret self
    end.

Definition get_person (full_name : string) : M Person :=
  if negb (PyStr.truthy full_name)
     || negb (PyStr.truthy (PyStr.strip full_name)) then
    raise (ValueError InvalidArgument "Full name cannot be empty")
  else
    let full_name := PyStr.strip full_name in
    let normalized_name := PyStr.lower full_name in
    w <- read ;;
    match _persons w !! normalized_name with
    | Some p => ret p
    | None => Person_init full_name
    end.

(** The names bound in the body of [class Person]. *)
Definition Person_members : list string :=
  ["_persons"; "__init__"; "full_name"; "__repr__"; "__str__"; "__eq__";
   "__hash__"].

(** [getattr(cls, name)] for a name that [object] does not provide: the
    name itself when the class binds it. *)
Definition class_getattr (cls_name : string) (members : list string)
    (name : string) : outcome string :=
  if existsb (String.eqb name) members then Return name
  else Raise (AttributeError
                ("type object '" ++ cls_name ++ "' has no attribute '"
                 ++ name ++ "'")).

(** [len(Person._persons)] *)
Definition len_persons (w : world) : nat := size (_persons w).

(** [count_person_objects()] of [eval_02.py]: the function returns
    [None]; the computation below yields the string it hands to [print]. *)
Definition count_person_objects : M string :=
  w <- read ;;
  ret (String.append "
Number of Person objects created: " (pretty (len_persons w))).

(** ** [module02/movie/movie.py] *)

Import PyDate.

(** The concrete subclasses of [Movie]. *)
Inductive genre_class :=
| ActionAdventure | Comedy | Drama | Horror | Romance
| ScienceFictionFantasy | Western.

#[global] Instance genre_class_eq_dec : EqDecision genre_class.
Proof. solve_decision. Defined.

(** A movie object.  [_directors] is the address of a list object. *)
Record Movie := {
  class_ : genre_class;
  _rt_link : string;
  _title : string;
  _rating : MovieRating;
  _directors : nat;
  _release_date : option datetime;
  _streaming_date : option datetime;
  _length : option Z;
  _company : option string;
  _score : option Z;
  _count : option Z
}.

(** The list stored at an address. *)
Definition list_at (w : world) (a : nat) : list Person :=
  default [] (lists w !! a).

Definition set_list (a : nat) (l : list Person) : M unit :=
  fun w =>
    (Return tt,
     {| _ratings := _ratings w; _persons := _persons w;
        lists := <[a := l]> (lists w); next_oid := next_oid w |}).

(** A new list object with the given elements. *)
Definition new_list (l : list Person) : M nat :=
  a <- alloc ;; set_list a l ;;; ret a.

(** Any in-place change of the list object at [a]: [append], [pop],
    [clear], [sort], item and slice assignment, ... *)
Definition mutate (a : nat) (f : list Person -> list Person) : M unit :=
  w <- read ;; set_list a (f (list_at w a)).

Definition list_append (a : nat) (p : Person) : M unit :=
  mutate a (fun l => l ++ [p]).
Definition list_clear (a : nat) : M unit :=
  mutate a (fun _ => []).

(** [cls(rt_link, title, rating, directors, ...)]: [Movie.__init__],
    which every subclass inherits. *)
Definition Movie_init (cls : genre_class) (rt_link title : string)
    (rating : option MovieRating) (directors : option nat)
    (release_date streaming_date : option datetime) (length : option Z)
    (company : option string) (score count : option Z) : M Movie :=
  if negb (PyStr.truthy rt_link) || negb (PyStr.truthy title) then
    raise (ValueError InvalidArgument "rt_link and title cannot be empty")
  else
    match rating with
    | None => raise (ValueError InvalidArgument "rating cannot be None")
    | Some rating =>
        ds <- match directors with
              | Some a => ret a
              | None => new_list []
              end ;;
        ret {| class_ := cls; _rt_link := rt_link; _title := title;
               _rating := rating; _directors := ds;
               _release_date := release_date;
               _streaming_date := streaming_date; _length := length;
               _company := company; _score := score; _count := count |}
    end.

(** The read-only properties. *)
Definition rt_link (self : Movie) : string := _rt_link self.
Definition title (self : Movie) : string := _title self.
Definition rating (self : Movie) : MovieRating := _rating self.
Definition release_date (self : Movie) : option datetime := _release_date self.
Definition streaming_date (self : Movie) : option datetime :=
  _streaming_date self.
Definition length (self : Movie) : option Z := _length self.
Definition company (self : Movie) : option string := _company self.
Definition score (self : Movie) : option Z := _score self.
Definition count (self : Movie) : option Z := _count self.

(** [directors]: [self._directors.copy()], a new list object. *)
Definition directors (self : Movie) : M nat :=
  w <- read ;; new_list (list_at w (_directors self)).

Definition relevant_score (self : Movie) : bool :=
  match _score self, _count self with
  | Some _, Some c => (100 <=? c)%Z
  | _, _ => false
  end.

(** [is_classic]; [current_year] is [datetime.now().year]. *)
Definition is_classic (current_year : Z) (self : Movie) : bool :=
  match _score self with
  | Some s =>
      if negb (relevant_score self) || (s <=? 80)%Z then false
      else match _release_date self with
           | None => false
           | Some d => (20 <=? current_year - year d)%Z
           end
  | None => false
  end.

Definition is_short (self : Movie) : bool :=
  match _length self with
  | Some l => (l <? 30)%Z
  | None => false
  end.

(** [Comedy.is_slapstick] *)
Definition is_slapstick (self : Movie) : bool :=
  relevant_score self
  && match _score self with
     | Some s => (s <? 40)%Z
     | None => false
     end.

(** [Horror.is_scary] *)
Definition is_scary (self : Movie) : M bool :=
  pg_rating <- get_rating "PG" ;;
  ret (Rating.gt (_rating self) pg_rating).

(** [Romance.is_cosy] *)
Definition is_cosy (self : Movie) : bool :=
  match _length self with
  | Some l => (70 <=? l)%Z && (l <=? 100)%Z
  | None => false
  end.

(** The names bound in the body of [class Movie], and in the body of
    each subclass. *)
Definition Movie_members : list string :=
  ["__init__"; "rt_link"; "title"; "rating"; "directors"; "release_date";
   "streaming_date"; "length"; "company"; "score"; "count";
   "relevant_score"; "is_classic"; "is_short"; "url"; "__repr__"; "__str__"].

Definition own_members (c : genre_class) : list string :=
  match c with
  | Comedy => ["is_slapstick"]
  | Horror => ["is_scary"]
  | Romance => ["is_cosy"]
  | ActionAdventure | Drama | ScienceFictionFantasy | Western => []
  end.

(** The attributes [__init__] sets on the instance. *)
Definition instance_attributes : list string :=
  ["_rt_link"; "_title"; "_rating"; "_directors"; "_release_date";
   "_streaming_date"; "_length"; "_company"; "_score"; "_count"].

(** [hasattr(m, name)] for a name that [object] does not provide: the
    instance, then the class, then [Movie]. *)
Definition hasattr (m : Movie) (name : string) : bool :=
  existsb (String.eqb name)
    (instance_attributes ++ own_members (class_ m) ++ Movie_members).

(** [genre_map], the dictionary literal of [create_movie]. *)
Definition genre_table : list (string * genre_class) :=
  [("ACTION & ADVENTURE", ActionAdventure);
   ("COMEDY", Comedy);
   ("DRAMA", Drama);
   ("HORROR", Horror);
   ("ROMANCE", Romance);
   ("SCIENCE FICTION & FANTASY", ScienceFictionFantasy);
   ("WESTERN", Western)].

Definition genre_map : gmap string genre_class := list_to_map genre_table.

(** [for x in xs: f(x)], collecting the results. *)
Fixpoint for_each {A B} (f : A -> M B) (xs : list A) : M (list B) :=
  match xs with
  | [] => ret []
  | x :: r => y <- f x ;; ys <- for_each f r ;; ret (y :: ys)
  end.

(** [[name.strip() for name in s.split(",") if name.strip()]] *)
Definition director_names (directors_str : string) : list string :=
  List.map PyStr.strip
    (List.filter (fun name => PyStr.truthy (PyStr.strip name))
       (PyStr.split "," directors_str)).

(** [v = None; if s: try: v = parse(s) except ValueError: pass] *)
Definition parse_optional {A} (parse : string -> option A)
    (s : option string) : option A :=
  match s with
  | Some s => if PyStr.truthy s then parse s else None
  | None => None
  end.

Definition create_movie (movie_info : gmap string string) : M Movie :=
  let rt_link := movie_info !! "rotten_tomatoes_link" in
  let title := movie_info !! "movie_title" in
  let rating_code := movie_info !! "content_rating" in
  let genre := movie_info !! "genre" in
  match rt_link, title, rating_code, genre with
  | Some rt_link, Some title, Some rating_code, Some genre =>
      if negb (PyStr.truthy rt_link) || negb (PyStr.truthy title)
         || negb (PyStr.truthy rating_code) || negb (PyStr.truthy genre)
      then raise (ValueError InvalidArgument "Missing required fields")
      else
        rating <- try_except (get_rating rating_code)
                    (raise (ValueError InvalidArgument
                              ("Invalid rating code: " ++ rating_code))) ;;
        let directors_str := default "" (movie_info !! "directors") in
        directors <- new_list [] ;;
        directors <- (if PyStr.truthy directors_str then
                        ps <- for_each get_person
                                (director_names directors_str) ;;
                        new_list ps
                      else ret directors) ;;
        let release_date :=
          parse_optional strptime_ymd (movie_info !! "original_release_date") in
        let streaming_date :=
          parse_optional strptime_ymd
            (movie_info !! "streaming_release_date") in
        let length :=
          parse_optional PyStr.int
            (Some (default "" (movie_info !! "runtime"))) in
        let score :=
          parse_optional PyStr.int
            (Some (default "" (movie_info !! "audience_rating"))) in
        let count :=
          parse_optional PyStr.int
            (Some (default "" (movie_info !! "audience_count"))) in
        let company := movie_info !! "production_company" in
        match (if PyStr.truthy genre then genre_map !! PyStr.upper genre
               else None) with
        | None =>
            raise (ValueError InvalidArgument ("Unknown genre: " ++ genre))
        | Some genre_class =>
            Movie_init genre_class rt_link title (Some rating)
              (Some directors) release_date streaming_date length company
              score count
        end
  | _, _, _, _ => raise (ValueError InvalidArgument "Missing required fields")
  end.

(** The record of [test_movies.py]. *)
Definition MOVIE_INFO : gmap string string :=
  list_to_map
    [("rotten_tomatoes_link", "m/1000640-all_of_me");
     ("movie_title", "All of Me");
     ("content_rating", "PG");
     ("genre", "COMEDY");
     ("directors", "Carl Reiner");
     ("original_release_date", "1984-09-21");
     ("streaming_release_date", "2016-10-30");
     ("runtime", "93");
     ("production_company", "HBO Video");
     ("audience_rating", "67");
     ("audience_count", "14346")].

(** ** Vocabulary of the properties *)

(** A field of the record is blanked: its value becomes the empty string,
    as an empty cell of the input file. *)
Definition blank (key : string) (movie_info : gmap string string)
  : gmap string string := <[key := ""]> movie_info.

(** A record all of whose values are of ASCII characters. *)
Definition ascii_record (movie_info : gmap string string) : Prop :=
  map_Forall (fun _ v => PyStr.isascii v = true) movie_info.

(** Every character of the string satisfies the test. *)
Fixpoint all_chars (p : ascii -> bool) (s : string) : bool :=
  match s with
  | EmptyString => true
  | String c r => p c && all_chars p r
  end.



(** Every registered person is an object that has been allocated. *)
Definition persons_allocated (w : world) : Prop :=
  forall k p, _persons w !! k = Some p -> person_oid p < next_oid w.

Definition required_fields : list string :=
  ["rotten_tomatoes_link"; "movie_title"; "content_rating"; "genre"].

(** Two strings that differ at most in the case of their letters. *)
Definition same_ignoring_case (a b : string) : Prop :=
  PyStr.lower a = PyStr.lower b.

(** A string that does not start with white space. *)
Definition no_leading_space (s : string) : Prop :=
  match s with
  | EmptyString => True
  | String c _ => PyStr.isspace c = false
  end.

(** The person registry is keyed by the normalized name of the person it
    holds, that name is the lower-cased full name, and no full name is
    empty. *)
Definition persons_wf (w : world) : Prop :=
  forall k p, _persons w !! k = Some p ->
    _normalized_name p = k
    /\ k = PyStr.lower (_full_name p)
    /\ PyStr.truthy (_full_name p) = true
    /\ person_oid p < next_oid w.

(** Every list object lies below the allocation counter. *)
Definition lists_wf (w : world) : Prop :=
  forall a, is_Some (lists w !! a) -> a < next_oid w.

Definition world_wf (w : world) : Prop := persons_wf w /\ lists_wf w.

(** A movie of the world: its list of directors is an object that has
    been allocated. *)
Definition movie_in (w : world) (m : Movie) : Prop :=
  _directors m < next_oid w.

(** What a computation leaves alone. *)
Definition same_ratings (w w' : world) : Prop := _ratings w' = _ratings w.

(** The world after an allocation that was not kept. *)
Definition bumped (w : world) : world :=
  {| _ratings := _ratings w; _persons := _persons w; lists := lists w;
     next_oid := S (next_oid w) |}.

(** The person that [Person(name)] builds in the world [w], and the world
    once that person is registered. *)
Definition new_person (name : string) (w : world) : Person :=
  {| person_oid := next_oid w; _full_name := PyStr.strip name;
     _normalized_name := PyStr.lower (PyStr.strip name) |}.

Definition registered (p : Person) (w : world) : world :=
  {| _ratings := _ratings w;
     _persons := <[_normalized_name p := p]> (_persons w);
     lists := lists w; next_oid := S (next_oid w) |}.

(** The four required values of a record, when each is present and not
    empty: the test that opens [create_movie]. *)
Definition required_values (movie_info : gmap string string)
  : option (string * string * string * string) :=
  match movie_info !! "rotten_tomatoes_link", movie_info !! "movie_title",
        movie_info !! "content_rating", movie_info !! "genre" with
  | Some rt_link, Some title, Some rating_code, Some genre =>
      if PyStr.truthy rt_link && PyStr.truthy title
         && PyStr.truthy rating_code && PyStr.truthy genre
      then Some (rt_link, title, rating_code, genre)
      else None
  | _, _, _, _ => None
  end.

(** The part of [create_movie] that builds the list of directors. *)
Definition directors_phase (directors_str : string) : M nat :=
  directors <- new_list [] ;;
  if PyStr.truthy directors_str then
    ps <- for_each get_person (director_names directors_str) ;;
    new_list ps
  else ret directors.

(** The movie that [create_movie] returns for a record, given the class,
    the rating and the list of directors it has resolved. *)
Definition built_movie (movie_info : gmap string string)
    (cls : genre_class) (rt_link title : string) (rating : MovieRating)
    (directors : nat) : Movie :=
  {| class_ := cls; _rt_link := rt_link; _title := title;
     _rating := rating; _directors := directors;
     _release_date :=
       parse_optional strptime_ymd (movie_info !! "original_release_date");
     _streaming_date :=
       parse_optional strptime_ymd (movie_info !! "streaming_release_date");
     _length := parse_optional PyStr.int (movie_info !! "runtime");
     _company := movie_info !! "production_company";
     _score := parse_optional PyStr.int (movie_info !! "audience_rating");
     _count := parse_optional PyStr.int (movie_info !! "audience_count") |}.

(** One world extends another: the ratings are the same, the objects
    that were allocated are still there, unchanged. *)
Definition extends (w w' : world) : Prop :=
  _ratings w' = _ratings w
  /\ next_oid w <= next_oid w'
  /\ (forall a, a < next_oid w -> lists w' !! a = lists w !! a).

(** ** The rest of the three modules *)

(** The rating that [MovieRating(code, description)] builds in the world
    [w], and the world once that rating is registered. *)
Definition new_rating (code description : string) (w : world) : MovieRating :=
  {| rating_oid := next_oid w; _code := code; _description := description |}.

Definition rated (r : MovieRating) (w : world) : world :=
  {| _ratings := <[_code r := r]> (_ratings w); _persons := _persons w;
     lists := lists w; next_oid := S (next_oid w) |}.

(** [Person.__eq__] on two persons. *)
Definition Person_eq (self other : Person) : bool :=
  String.eqb (_normalized_name self) (_normalized_name other).

(** Registered persons under different keys are different objects. *)
Definition persons_distinct (w : world) : Prop :=
  forall k1 k2 p q,
    _persons w !! k1 = Some p -> _persons w !! k2 = Some q ->
    person_oid p = person_oid q -> k1 = k2.

(** The invariant of the worlds that the program can reach. *)
Definition invariant (w : world) : Prop :=
  persons_wf w /\ persons_distinct w /\ lists_wf w.

(** From one world to a later one: both registries only gain entries,
    the counter does not go back, and the list objects that exist are
    not touched. *)
Definition grows (w w' : world) : Prop :=
  _ratings w ⊆ _ratings w'
  /\ _persons w ⊆ _persons w'
  /\ next_oid w <= next_oid w'
  /\ (forall a, a < next_oid w -> lists w' !! a = lists w !! a).

(** A change of the world that grows it and keeps the invariant. *)
Definition evolves (w w' : world) : Prop :=
  grows w w' /\ (invariant w -> invariant w').

(** A call of one of the operations of the three modules. *)
Inductive call :=
| CallMovieRating (code description : string)
| CallGetRating (code : string)
| CallPerson (full_name : string)
| CallGetPerson (full_name : string)
| CallCreateMovie (movie_info : gmap string string)
| CallDirectors (m : Movie).

(** A call whose string arguments are of ASCII characters. *)
Definition ascii_call (c : call) : Prop :=
  match c with
  | CallMovieRating code description =>
      PyStr.isascii code = true /\ PyStr.isascii description = true
  | CallGetRating code => PyStr.isascii code = true
  | CallPerson full_name => PyStr.isascii full_name = true
  | CallGetPerson full_name => PyStr.isascii full_name = true
  | CallCreateMovie movie_info => ascii_record movie_info
  | CallDirectors _ => True
  end.

(** The world after a call, whether it returned or raised. *)
Definition after_call (c : call) (w : world) : world :=
  match c with
  | CallMovieRating code description =>
      snd (MovieRating_init code description w)
  | CallGetRating code => snd (get_rating code w)
  | CallPerson full_name => snd (Person_init full_name w)
  | CallGetPerson full_name => snd (get_person full_name w)
  | CallCreateMovie movie_info => snd (create_movie movie_info w)
  | CallDirectors m => snd (directors m w)
  end.

Definition after_calls (cs : list call) (w : world) : world :=
  foldl (fun w c => after_call c w) w cs.

(** ** [module02/eval_02.py] *)

(** [s * n] for a string, and [f"{i}"] for an integer or [None]. *)
Fixpoint str_mul (s : string) (n : nat) : string :=
  match n with
  | 0 => EmptyString
  | S k => String.append s (str_mul s k)
  end.

Definition str_int (z : Z) : string := pretty z.

Definition str_opt_int (o : option Z) : string :=
  match o with
  | Some z => str_int z
  | None => "None"
  end.

(** [f"{i:3}"]: the number, right-aligned in a field of the width. *)
Definition rjust (width : nat) (s : string) : string :=
  String.append (str_mul " " (width - String.length s)) s.

(** [f"{s:25}"]: the string, left-aligned in a field of the width. *)
Definition ljust (width : nat) (s : string) : string :=
  String.append s (str_mul " " (width - String.length s)).

(** [max] and [min] of a sequence of integers; [None] stands for the
    [ValueError] on the empty sequence. *)
Definition py_max (l : list Z) : option Z :=
  match l with
  | [] => None
  | x :: r => Some (foldl Z.max x r)
  end.

Definition py_min (l : list Z) : option Z :=
  match l with
  | [] => None
  | x :: r => Some (foldl Z.min x r)
  end.

(** A [Counter]: its items, in the order in which the keys were first
    inserted.  [counter_incr k c] is [c[k] += 1], [counter_get c k] is
    [c.get(k, 0)]. *)
Fixpoint counter_incr (k : string) (c : list (string * nat))
  : list (string * nat) :=
  match c with
  | [] => [(k, 1)]
  | (k', n) :: r =>
      if String.eqb k' k then (k', S n) :: r
      else (k', n) :: counter_incr k r
  end.

Definition counter_get (c : list (string * nat)) (k : string) : nat :=
  match List.find (fun kv => String.eqb (fst kv) k) c with
  | Some kv => snd kv
  | None => 0
  end.

(** [sorted(xs, key=key, reverse=True)]: the stable sort by decreasing
    key, elements of equal key in the order of [xs]. *)
Fixpoint insert_desc {A} (key : A -> nat) (x : A) (l : list A) : list A :=
  match l with
  | [] => [x]
  | y :: r =>
      if Nat.ltb (key y) (key x) then x :: y :: r
      else y :: insert_desc key x r
  end.

Definition sorted_desc {A} (key : A -> nat) (xs : list A) : list A :=
  foldl (fun acc x => insert_desc key x acc) [] xs.

(** [sorted(xs)] for strings: the stable sort by increasing value. *)
Fixpoint insert_asc (x : string) (l : list string) : list string :=
  match l with
  | [] => [x]
  | y :: r =>
      if String.ltb x y then x :: y :: r else y :: insert_asc x r
  end.

Definition sorted_asc (xs : list string) : list string :=
  foldl (fun acc x => insert_asc x acc) [] xs.

(** [[x for x in xs if p(x)]], where [p] is a computation. *)
Fixpoint filter_M {A} (p : A -> M bool) (xs : list A) : M (list A) :=
  match xs with
  | [] => ret []
  | x :: r =>
      b <- p x ;; ys <- filter_M p r ;; ret (if b then x :: ys else ys)
  end.

(** The body of the loop of [load_movies], run for each of the rows
    that [csv.DictReader] yields: a row that [create_movie] rejects is
    counted and skipped.  A cell that the reader leaves at [None] is a
    key without a value in the row; [create_movie] reads the rows with
    [get] and treats [None] as the empty cell. *)
Fixpoint load_movies_loop (rows : list (gmap string string))
    (movies : list Movie) (errors : nat) : M (list Movie * nat) :=
  match rows with
  | [] => ret (movies, errors)
  | row :: rest =>
      fun w =>
        match create_movie row w with
        | (Return movie, w') =>
            load_movies_loop rest (movies ++ [movie]) errors w'
        | (Raise (ValueError _ _), w') =>
            load_movies_loop rest movies (S errors) w'
        | (Raise e, w') => (Raise e, w')
        end
  end.

(** What [load_movies] finds at the location.  There may be no file;
    [open] may raise; otherwise the reader yields some rows and then
    either ends, or raises in the header of the loop (a line that
    cannot be decoded, a malformed line). *)
Inductive file :=
| NoFile
| CannotOpen
| Rows (rows : list (gmap string string)) (complete : bool).

(** How [load_movies] ends: it raises [FileNotFoundError], it returns
    [None], or it returns the movies.  The number of errors is kept
    with the movies: the function prints it.  (The other messages it
    prints are not part of the model.) *)
Inductive load_result :=
| FileNotFoundError
| ReturnNone
| ReturnMovies (movies : list Movie) (errors : nat).

(** [load_movies]: an exception of the reader, and any exception of
    the body other than [ValueError], reaches the outer handler, which
    returns [None]; the persons registered until then stay.  Printing
    is taken to succeed. *)
Definition load_movies (f : file) (w : world) : load_result * world :=
  match f with
  | NoFile => (FileNotFoundError, w)
  | CannotOpen => (ReturnNone, w)
  | Rows rows complete =>
      match load_movies_loop rows [] 0 w with
      | (Return (movies, errors), w') =>
          if complete then (ReturnMovies movies errors, w')
          else (ReturnNone, w')
      | (Raise _, w') => (ReturnNone, w')
      end
  end.

Definition dashes : string := str_mul "-" 40.

(** [print_movies_per_genre]; [class_name] is [cls.__name__]. *)
Definition class_name (c : genre_class) : string :=
  match c with
  | ActionAdventure => "ActionAdventure"
  | Comedy => "Comedy"
  | Drama => "Drama"
  | Horror => "Horror"
  | Romance => "Romance"
  | ScienceFictionFantasy => "ScienceFictionFantasy"
  | Western => "Western"
  end.

Definition genre_count (movies : list Movie) : list (string * nat) :=
  foldl (fun c m => counter_incr (class_name (class_ m)) c) [] movies.

Definition genre_line (kv : string * nat) : string :=
  ljust 25 (fst kv) +:+ " : " +:+ pretty (snd kv).

Definition print_movies_per_genre (movies : list Movie) : list string :=
  ["
Movies per genre (sorted by count):"; dashes]
  ++ List.map genre_line (sorted_desc snd (genre_count movies)).

(** [print_highest_scoring_movies]: its three local values, then the
    lines it prints; [None] stands for the [ValueError] of [max]. *)
Definition relevant_movies (movies : list Movie) : list Movie :=
  List.filter relevant_score movies.

Definition highest_score (movies : list Movie) : option Z :=
  py_max (omap score (relevant_movies movies)).

Definition top_movies (movies : list Movie) (highest : Z) : list Movie :=
  List.filter (fun m => bool_decide (score m = Some highest))
    (relevant_movies movies).

Definition print_highest_scoring_movies (movies : list Movie)
  : option (list string) :=
  match relevant_movies movies with
  | [] => Some ["
No movies with relevant scores found."]
  | _ :: _ =>
      match highest_score movies with
      | None => None
      | Some h =>
          Some (["
Highest score: " +:+ str_int h +:+ "%";
                 "Number of movies with this score: "
                 +:+ pretty (Datatypes.length (top_movies movies h));
                 dashes]
                ++ List.map
                     (fun m => title m +:+ " (Score: "
                               +:+ str_opt_int (score m) +:+ "%, Votes: "
                               +:+ str_opt_int (count m) +:+ ")")
                     (top_movies movies h))
      end
  end.

(** [print_most_active_directors].  The loop that fills the counter
    reads [movie.directors], which gives a new list object each time. *)
Fixpoint count_directors (movies : list Movie) (c : list (string * nat))
  : M (list (string * nat)) :=
  match movies with
  | [] => ret c
  | movie :: rest =>
      a <- directors movie ;;
      w <- read ;;
      count_directors rest
        (foldl (fun c director => counter_incr (full_name director) c)
           c (list_at w a))
  end.

Definition top_directors (director_count : list (string * nat))
    (max_count : nat) : list string :=
  List.map fst
    (List.filter (fun kv => Nat.eqb (snd kv) max_count) director_count).

Definition print_most_active_directors (movies : list Movie)
  : M (list string) :=
  director_count <- count_directors movies [] ;;
  match director_count with
  | [] => ret ["
No directors found."]
  | kv :: rest =>
      let max_count := foldl Nat.max (snd kv) (List.map snd rest) in
      ret (["
Most active director(s) directed " +:+ pretty max_count +:+ " films:";
            dashes]
           ++ sorted_asc (top_directors director_count max_count))
  end.

(** [print_shortest_longest_movies] *)
Definition movies_with_length (movies : list Movie) : list Movie :=
  List.filter (fun m => bool_decide (length m <> None)) movies.

Definition min_length (movies : list Movie) : option Z :=
  py_min (omap length (movies_with_length movies)).

Definition max_length (movies : list Movie) : option Z :=
  py_max (omap length (movies_with_length movies)).

Definition movies_of_length (movies : list Movie) (l : Z) : list Movie :=
  List.filter (fun m => bool_decide (length m = Some l))
    (movies_with_length movies).

Definition length_line (m : Movie) : string :=
  title m +:+ " (" +:+ str_opt_int (length m) +:+ " min)".

Definition print_shortest_longest_movies (movies : list Movie)
  : option (list string) :=
  match movies_with_length movies with
  | [] => Some ["
No movies with length information found."]
  | _ :: _ =>
      match min_length movies, max_length movies with
      | Some lo, Some hi =>
          Some (["
SHORTEST movies (" +:+ str_int lo +:+ " minutes):"; dashes]
                ++ List.map length_line (movies_of_length movies lo)
                ++ ["
LONGEST movies (" +:+ str_int hi +:+ " minutes):"; dashes]
                ++ List.map length_line (movies_of_length movies hi))
      | _, _ => None
      end
  end.

(** [print_scary_horror_movies]; [rating_str] is [MovieRating.__str__]. *)
Definition rating_str (r : MovieRating) : string :=
  "Rating(" +:+ code r +:+ ")".

Definition horror_movies (movies : list Movie) : list Movie :=
  List.filter (fun m => bool_decide (class_ m = Horror)) movies.

Definition scary_line (m : Movie) : string :=
  title m +:+ " (Rating: " +:+ rating_str (rating m) +:+ ")".

Definition print_scary_horror_movies (movies : list Movie)
  : M (list string) :=
  match horror_movies movies with
  | [] => ret ["
No horror movies found."]
  | _ :: _ =>
      scary_movies <- filter_M is_scary (horror_movies movies) ;;
      ret (["
Scary horror movies: " +:+ pretty (Datatypes.length scary_movies)
            +:+ " out of "
            +:+ pretty (Datatypes.length (horror_movies movies))
            +:+ " horror movies"; dashes]
           ++ List.map scary_line scary_movies)
  end.

(** [print_score_distribution]: the counter, then the lines. *)
Definition score_count (movies : list Movie) : gmap Z nat :=
  foldl (fun c m =>
           match score m with
           | Some s => <[s := S (default 0 (c !! s))]> c
           | None => c
           end) ∅ movies.

(** [range(101)] *)
Definition range_101 : list Z := Z.of_nat <$> seq 0 101.

Definition print_score_distribution (movies : list Movie) : list string :=
  ["
Score distribution (0-100%):"; dashes]
  ++ List.map
       (fun score =>
          let count := default 0 (score_count movies !! score) in
          rjust 3 (str_int score) +:+ "%: " +:+ pretty count)
       range_101.

(** [option_11_filter_movies].  The only exceptions it can raise are
    the two [TypeError]s of a missing release date and of a missing
    length. *)
Inductive type_error := TypeError (msg : string).

Definition datetime_le (a b : datetime) : bool :=
  ((year a <? year b)
   || ((year a =? year b)
       && ((month a <? month b)
           || ((month a =? month b) && (day a <=? day b)))))%Z.

Definition start_date : datetime := {| year := 2000; month := 4; day := 1 |}.
Definition end_date : datetime := {| year := 2005; month := 4; day := 1 |}.

Definition zfill (width : nat) (s : string) : string :=
  String.append (str_mul "0" (width - String.length s)) s.

(** [str(release.date())] *)
Definition date_str (d : datetime) : string :=
  zfill 4 (str_int (year d)) +:+ "-" +:+ zfill 2 (str_int (month d)) +:+ "-"
  +:+ zfill 2 (str_int (day d)).

Definition option_11_line (m : Movie) (release : datetime) : string :=
  "- " +:+ title m +:+ " (" +:+ str_opt_int (length m) +:+ " min, "
  +:+ date_str release +:+ ")".

Fixpoint option_11_loop (movies : list Movie) (found : bool)
  : list string * option type_error :=
  match movies with
  | [] =>
      (if found then []
       else ["No movies found that match these criteria."], None)
  | movie :: rest =>
      match release_date movie with
      | None =>
          ([], Some (TypeError "strptime() argument 1 must be str, not None"))
      | Some release =>
          if datetime_le start_date release && datetime_le release end_date
          then
            match length movie with
            | None =>
                ([], Some (TypeError
                  "'<' not supported between instances of 'NoneType' and 'int'"))
            | Some l =>
                if (l <? 120)%Z then
                  let r := option_11_loop rest true in
                  (option_11_line movie release :: fst r, snd r)
                else option_11_loop rest found
            end
          else option_11_loop rest found
      end
  end.

Definition header_11 : string := "
--- Option 11: Movies released between 1/4/2000 and 1/4/2005 shorter than 120 minutes ---".

Definition option_11_filter_movies (movies : list Movie)
  : list string * option type_error :=
  let r := option_11_loop movies false in
  (header_11 :: fst r, snd r).

(** ** Vocabulary of the properties of [eval_02.py] *)

(** A row that [create_movie] accepts, given the ratings registered, and
    one that it rejects. *)
Definition acceptable (w : world) (row : gmap string string) : bool :=
  match required_values row with
  | Some (_, _, rc, g) =>
      contains (_ratings w) rc
      && match genre_map !! PyStr.upper g with
         | Some _ => true
         | None => false
         end
  | None => false
  end.

Definition rejected (w : world) (row : gmap string string) : bool :=
  negb (acceptable w row).

(** The movie that [create_movie] builds from a row: its fields are the
    ones of the row, its class is the one of the genre table. *)
Definition loaded_from (w : world) (row : gmap string string) (m : Movie)
  : Prop :=
  exists rt t rc g r,
    required_values row = Some (rt, t, rc, g)
    /\ _ratings w !! rc = Some r
    /\ genre_map !! PyStr.upper g = Some (class_ m)
    /\ m = built_movie row (class_ m) rt t r (_directors m).

(** The counter after [c[k] += 1] for each of the keys in turn, and the
    number of times that a key is in a list. *)
Definition counter_of (keys : list string) (c : list (string * nat))
  : list (string * nat) :=
  foldl (fun c k => counter_incr k c) c keys.

Definition occurrences (k : string) (keys : list string) : nat :=
  Datatypes.length (List.filter (String.eqb k) keys).

(** The two orders of the sorted lists. *)
Definition desc {A} (key : A -> nat) (x y : A) : Prop := key y <= key x.


Definition of_genre (c : genre_class) (movies : list Movie) : list Movie :=
  List.filter (fun m => bool_decide (class_ m = c)) movies.

(** The names of the directors of the movies, one for each time that a
    person is a director of a movie. *)
Definition director_credits (w : world) (movies : list Movie)
  : list string :=
  List.concat
    (List.map (fun m => List.map full_name (list_at w (_directors m)))
       movies).

Definition rated_PG13_or_R (m : Movie) : bool :=
  bool_decide (code (rating m) = "PG-13" \/ code (rating m) = "R").

Definition with_score (s : Z) (movies : list Movie) : list Movie :=
  List.filter (fun m => bool_decide (score m = Some s)) movies.

Definition distribution_line (movies : list Movie) (s : Z) : string :=
  rjust 3 (str_int s) +:+ "%: "
  +:+ pretty (Datatypes.length (with_score s movies)).

(** The movies that option 11 lists, and the ones it cannot handle. *)
Definition in_period (d : datetime) : bool :=
  datetime_le start_date d && datetime_le d end_date.

Definition listed_11 (m : Movie) : bool :=
  match release_date m, length m with
  | Some d, Some l => in_period d && (l <? 120)%Z
  | _, _ => false
  end.

Definition fatal_11 (m : Movie) : bool :=
  match release_date m, length m with
  | None, _ => true
  | Some d, None => in_period d
  | Some _, Some _ => false
  end.

Definition line_11 (m : Movie) : string :=
  match release_date m with
  | Some release => option_11_line m release
  | None => EmptyString
  end.

Definition error_11 (m : Movie) : type_error :=
  match release_date m with
  | None => TypeError "strptime() argument 1 must be str, not None"
  | Some _ =>
      TypeError "'<' not supported between instances of 'NoneType' and 'int'"
  end.

(** A small catalogue: five rows, and the movies and the world that
    loading them gives. *)
Definition example_row (fields : list (string * string))
  : gmap string string :=
  foldr (fun kv row => <[fst kv := snd kv]> row) MOVIE_INFO fields.

Definition example_rows : list (gmap string string) :=
  [example_row [];
   example_row [("movie_title", "Second"); ("genre", "Horror");
                ("content_rating", "R"); ("directors", "Bob, Carl Reiner");
                ("original_release_date", "2001-02-03");
                ("audience_rating", "91")];
   example_row [("movie_title", "Third"); ("genre", "Horror");
                ("content_rating", "NC-17"); ("directors", "Bob,Al");
                ("original_release_date", "2005-04-01"); ("runtime", "7")];
   example_row [("movie_title", "Fourth"); ("genre", "Drama");
                ("content_rating", "PG-13"); ("directors", EmptyString);
                ("original_release_date", "2000-04-01");
                ("runtime", "119"); ("audience_rating", "91")];
   example_row [("movie_title", "Fifth"); ("genre", "horror");
                ("content_rating", "PG-13"); ("directors", "Al");
                ("original_release_date", "2000-03-31");
                ("runtime", "120"); ("audience_rating", "-3")]].

Definition example_world : world :=
  snd (load_movies_loop example_rows [] 0 world0).

Definition example_movies : list Movie :=
  match fst (load_movies_loop example_rows [] 0 world0) with
  | Return (movies, _) => movies
  | Raise _ => []
  end.

(** Unfolding of the primitive computations. *)
Ltac run_M :=
  unfold bind, ret, raise, read, write, alloc, set_rating, set_person,
    set_list, try_except; simpl.

(** * Properties *)

(** ** Strings *)

Module PyStrFacts.
Import PyStr.

Lemma truthy_true s : truthy s = true <-> s <> EmptyString.
Proof. destruct s; simpl; split; congruence. Qed.

Lemma truthy_false s : truthy s = false <-> s = EmptyString.
Proof. destruct s; simpl; split; congruence. Qed.

Lemma rstrip_idem s : rstrip (rstrip s) = rstrip s.
Proof.
  induction s as [|c r IH]; simpl; [reflexivity|].
  destruct (rstrip r) as [|d r'] eqn:E.
  - destruct (isspace c) eqn:Hc; simpl; [reflexivity|].
    now rewrite Hc.
  - change (rstrip (String c (String d r')))
      with (match rstrip (String d r') with
            | EmptyString =>
                if isspace c then EmptyString else String c EmptyString
            | r'' => String c r''
            end).
    rewrite IH. reflexivity.
Qed.

Lemma lstrip_no_leading_space s : no_leading_space (lstrip s).
Proof.
  induction s as [|c r IH]; simpl; [exact I|].
  destruct (isspace c) eqn:Hc; simpl; auto.
Qed.

Lemma lstrip_fixed s : no_leading_space s -> lstrip s = s.
Proof. destruct s as [|c r]; simpl; [reflexivity|]. now intros ->. Qed.

Lemma rstrip_no_leading_space s :
  no_leading_space s -> no_leading_space (rstrip s).
Proof.
  destruct s as [|c r]; simpl; [auto|]. intros Hc.
  destruct (rstrip r); rewrite ?Hc; simpl; assumption.
Qed.

Lemma strip_idem s : strip (strip s) = strip s.
Proof.
  unfold strip.
  rewrite (lstrip_fixed (rstrip (lstrip s))).
  - apply rstrip_idem.
  - apply rstrip_no_leading_space, lstrip_no_leading_space.
Qed.

Lemma strip_empty : strip EmptyString = EmptyString.
Proof. reflexivity. Qed.

Lemma truthy_strip s : truthy (strip s) = true -> truthy s = true.
Proof. destruct s; [discriminate | reflexivity]. Qed.

Lemma truthy_map_chars f s : truthy (map_chars f s) = truthy s.
Proof. destruct s; reflexivity. Qed.

Lemma truthy_lower s : truthy (lower s) = truthy s.
Proof. apply truthy_map_chars. Qed.

Lemma truthy_upper s : truthy (upper s) = truthy s.
Proof. apply truthy_map_chars. Qed.

Lemma lower_upper_char c : lower_char (upper_char c) = lower_char c.
Proof. destruct c as [[] [] [] [] [] [] [] []]; reflexivity. Qed.

Lemma upper_lower_char c : upper_char (lower_char c) = upper_char c.
Proof. destruct c as [[] [] [] [] [] [] [] []]; reflexivity. Qed.

Lemma lower_upper s : lower (upper s) = lower s.
Proof.
  induction s as [|c r IH]; simpl; [reflexivity|].
  unfold lower, upper in *. simpl. now rewrite lower_upper_char, IH.
Qed.

Lemma upper_lower s : upper (lower s) = upper s.
Proof.
  induction s as [|c r IH]; simpl; [reflexivity|].
  unfold lower, upper in *. simpl. now rewrite upper_lower_char, IH.
Qed.

(** Matching the upper-cased text against a name written in capitals
    is matching the name without regard to case. *)
Lemma upper_eq_iff g name :
  upper name = name -> (upper g = name <-> lower g = lower name).
Proof.
  intros Hn. split; intros H.
  - rewrite <- H. symmetry. apply lower_upper.
  - rewrite <- (upper_lower g), H, upper_lower. exact Hn.
Qed.

Lemma split_nonempty sep s : split sep s <> [].
Proof.
  induction s as [|c r IH]; simpl; [discriminate|].
  destruct (Ascii.eqb c sep); [discriminate|].
  destruct (split sep r); [contradiction | discriminate].
Qed.

End PyStrFacts.

(** ** The monad *)

Lemma bind_Return {A B} (c : M A) (k : A -> M B) w a w' :
  c w = (Return a, w') -> bind c k w = k a w'.
Proof. unfold bind. now intros ->. Qed.

Lemma bind_Raise {A B} (c : M A) (k : A -> M B) w e w' :
  c w = (Raise e, w') -> bind c k w = (Raise e, w').
Proof. unfold bind. now intros ->. Qed.

Lemma bind_inv {A B} (c : M A) (k : A -> M B) w b w2 :
  bind c k w = (Return b, w2) ->
  exists a w1, c w = (Return a, w1) /\ k a w1 = (Return b, w2).
Proof.
  unfold bind. destruct (c w) as [[a|e] w1]; [eauto | discriminate].
Qed.

(** ** Ratings *)

Lemma rating_module_import :
  rating_module empty_world = (Return (NR, G, PG, PG13, R, NC17), world0).
Proof. vm_compute. reflexivity. Qed.

Lemma world0_ratings :
  _ratings world0
  = <["NC-17" := NC17]> (<["R" := R]> (<["PG-13" := PG13]>
      (<["PG" := PG]> (<["G" := G]> (<["NR" := NR]> ∅))))).
Proof. vm_compute. reflexivity. Qed.

Lemma world0_persons : _persons world0 = ∅.
Proof. vm_compute. reflexivity. Qed.

(** [get_rating] reads the registry and nothing else: on a registered
    code it returns the registered instance and leaves the world as it
    was, so every later call returns that same instance. *)
Lemma get_rating_registered c r w :
  _ratings w !! c = Some r -> get_rating c w = (Return r, w).
Proof. intros H. unfold get_rating. run_M. now rewrite H. Qed.

Lemma get_rating_unregistered c w :
  _ratings w !! c = None ->
  get_rating c w
  = (Raise (ValueError NotFound
              ("Rating with code '" ++ c ++ "' does not exist")), w).
Proof. intros H. unfold get_rating. run_M. now rewrite H. Qed.

Lemma get_rating_world c w : snd (get_rating c w) = w.
Proof.
  unfold get_rating. run_M. now destruct (_ratings w !! c).
Qed.

(** The codes under which the six instances are registered. *)
Lemma get_rating_standard :
  Forall (fun r => get_rating (code r) world0 = (Return r, world0))
    standard_ratings.
Proof. repeat constructor. Qed.

(** Where both codes are in [_rating_order], [<] is the order of the
    positions. *)
Lemma lt_listed a b i j :
  PyStr.index _rating_order (code a) = Some i ->
  PyStr.index _rating_order (code b) = Some j ->
  Rating.lt a b = Nat.ltb i j.
Proof. intros Ha Hb. unfold Rating.lt. now rewrite Ha, Hb. Qed.

(** The five instances whose code is in [_rating_order] are ordered as
    the contract says. *)
Lemma lt_first_five :
  let five := [NR; G; PG; PG13; R] in
  forall i j a b, five !! i = Some a -> five !! j = Some b ->
    Rating.lt a b = Nat.ltb i j /\ Rating.gt b a = Nat.ltb i j.
Proof.
  intros five i j a b Hi Hj.
  destruct i as [|[|[|[|[|i]]]]]; simpl in Hi; try discriminate;
    destruct j as [|[|[|[|[|j]]]]]; simpl in Hj; try discriminate;
    injection Hi as <-; injection Hj as <-; split; reflexivity.
Qed.

(** Every rating is equal to itself, and no pair is both below and
    above: [>] is defined as the negation of [<=]. *)
Lemma rating_eq_refl a : Rating.eq a a = true.
Proof. apply String.eqb_refl. Qed.

Lemma lt_gt_exclusive a b : Rating.lt a b = true -> Rating.gt a b = false.
Proof. unfold Rating.gt, Rating.le. now intros ->. Qed.

(** C1 (the code at the failing input).  The instance [NC17] carries the
    code ["NC-17"], which is not in [_rating_order] (that list has
    ["NC17"]), so every comparison with it is a comparison of the code
    strings: [R < NC17] is false and [NC17 > R] is false although R
    comes before NC-17 in the contract, and the results form the cycle
    NC17 < NR < G < NC17, so the operators are not one total order. *)
Theorem C1_order_fails_at_NC17 :
  PyStr.index _rating_order (code NC17) = None
  /\ Rating.lt R NC17 = false
  /\ Rating.gt NC17 R = false
  /\ Rating.lt NC17 R = true
  /\ Rating.lt NC17 NR = true /\ Rating.lt NR G = true
  /\ Rating.lt G NC17 = true.
Proof. repeat split. Qed.

(** C2 (the code at the failing input).  Once the module is imported the
    code ["NC17"] of the contract is not registered: the sixth instance
    is registered under ["NC-17"], and the lookup of ["NC17"] raises. *)
Theorem C2_lookup_of_NC17_raises :
  get_rating "NC17" world0
  = (Raise (ValueError NotFound "Rating with code 'NC17' does not exist"),
     world0)
  /\ get_rating "NC-17" world0 = (Return NC17, world0).
Proof. split; reflexivity. Qed.

(** ** Persons *)

Section PersonRegistry.
Import PyStr PyStrFacts.

Variable name : string.
Variable w : world.

Lemma Person_init_empty :
  truthy (strip name) = false ->
  Person_init name w
  = (Raise (ValueError InvalidArgument "Full name cannot be empty"),
     bumped w).
Proof.
  intros H. unfold Person_init. run_M. rewrite H.
  now rewrite orb_true_r.
Qed.

Lemma Person_init_new :
  truthy (strip name) = true ->
  _persons w !! lower (strip name) = None ->
  Person_init name w
  = (Return (new_person name w), registered (new_person name w) w).
Proof.
  intros H Hk. unfold Person_init. run_M.
  rewrite H, (truthy_strip _ H). simpl.
  now rewrite Hk.
Qed.

Lemma Person_init_duplicate existing :
  truthy (strip name) = true ->
  _persons w !! lower (strip name) = Some existing ->
  Person_init name w
  = (Raise (ValueError DuplicateKey
              ("Person with name '" ++ name
               ++ "' already exists (existing: '"
               ++ _full_name existing ++ "')")),
     bumped w).
Proof.
  intros H Hk. unfold Person_init. run_M.
  rewrite H, (truthy_strip _ H). simpl.
  now rewrite Hk.
Qed.

Lemma get_person_empty :
  truthy (strip name) = false ->
  get_person name w
  = (Raise (ValueError InvalidArgument "Full name cannot be empty"), w).
Proof.
  intros H. unfold get_person. rewrite H.
  now rewrite orb_true_r.
Qed.

Lemma get_person_existing p :
  truthy (strip name) = true ->
  _persons w !! lower (strip name) = Some p ->
  get_person name w = (Return p, w).
Proof.
  intros H Hk. unfold get_person.
  rewrite H, (truthy_strip _ H). simpl. run_M.
  now rewrite Hk.
Qed.

End PersonRegistry.

Section PersonRegistryNew.
Import PyStr PyStrFacts.

Lemma new_person_strip name w :
  new_person (strip name) w = new_person name w.
Proof. unfold new_person. now rewrite strip_idem. Qed.

(** [get_person] builds the person from the stripped name; stripping
    twice changes nothing, so the constructor computes the key that
    [get_person] has just found free. *)
Lemma get_person_new name w :
  truthy (strip name) = true ->
  _persons w !! lower (strip name) = None ->
  get_person name w
  = (Return (new_person name w), registered (new_person name w) w).
Proof.
  intros H Hk. unfold get_person.
  rewrite H, (truthy_strip _ H). simpl. run_M. rewrite Hk.
  rewrite Person_init_new.
  - now rewrite new_person_strip.
  - now rewrite strip_idem.
  - now rewrite strip_idem.
Qed.

(** The three cases of [get_person], in one statement. *)
Lemma get_person_cases name w :
  (truthy (strip name) = false
   /\ get_person name w
      = (Raise (ValueError InvalidArgument "Full name cannot be empty"),
         w))
  \/ (truthy (strip name) = true
      /\ exists p, _persons w !! lower (strip name) = Some p
                   /\ get_person name w = (Return p, w))
  \/ (truthy (strip name) = true
      /\ _persons w !! lower (strip name) = None
      /\ get_person name w
         = (Return (new_person name w),
            registered (new_person name w) w)).
Proof.
  destruct (truthy (strip name)) eqn:H.
  - right. destruct (_persons w !! lower (strip name)) as [p|] eqn:Hk.
    + left. split; [reflexivity|]. exists p. split; [reflexivity|].
      now apply get_person_existing.
    + right. repeat split. now apply get_person_new.
  - left. split; [reflexivity|]. now apply get_person_empty.
Qed.

(** After [get_person] has returned [p], the key of the name holds
    [p]. *)
Lemma get_person_registers name w p w' :
  get_person name w = (Return p, w') ->
  truthy (strip name) = true
  /\ _persons w' !! lower (strip name) = Some p.
Proof.
  intros H.
  destruct (get_person_cases name w)
    as [[_ E]|[[Ht (q & Hq & E)]|(Ht & _ & E)]];
    rewrite E in H; try discriminate.
  - injection H as <- <-. auto.
  - injection H as <- <-. split; [assumption|].
    simpl. apply lookup_insert_eq.
Qed.

(** A call that returns an instance for one spelling of a name is
    followed by calls that return that very instance for every
    spelling with the same normalized key. *)
Lemma get_person_same_instance n1 n2 w p w1 :
  get_person n1 w = (Return p, w1) ->
  lower (strip n1) = lower (strip n2) ->
  get_person n2 w1 = (Return p, w1).
Proof.
  intros H E. apply get_person_registers in H as [Ht Hk].
  apply get_person_existing.
  - rewrite <- truthy_lower, <- E, truthy_lower. exact Ht.
  - now rewrite <- E.
Qed.

(** The size of the registry: one more after a new person, the same
    after a call that finds one or that raises. *)
Lemma len_persons_registered p w :
  _persons w !! _normalized_name p = None ->
  len_persons (registered p w) = S (len_persons w).
Proof.
  intros H. unfold len_persons. simpl. now apply map_size_insert_None.
Qed.

Lemma len_persons_Person_init name w p w' :
  Person_init name w = (Return p, w') ->
  len_persons w' = S (len_persons w).
Proof.
  intros H. destruct (truthy (strip name)) eqn:Ht.
  - destruct (_persons w !! lower (strip name)) as [q|] eqn:Hk.
    + rewrite (Person_init_duplicate _ _ q Ht Hk) in H. discriminate.
    + rewrite (Person_init_new _ _ Ht Hk) in H. injection H as <- <-.
      now apply len_persons_registered.
  - rewrite (Person_init_empty _ _ Ht) in H. discriminate.
Qed.

Lemma len_persons_get_person name w o w' :
  get_person name w = (o, w') ->
  len_persons w'
  = if bool_decide (is_Some (_persons w !! lower (strip name)))
    then len_persons w
    else match o with
         | Return _ => S (len_persons w)
         | Raise _ => len_persons w
         end.
Proof.
  intros H.
  destruct (get_person_cases name w)
    as [[Hf E]|[[Ht (q & Hq & E)]|(Ht & Hk & E)]];
    rewrite E in H; injection H as <- <-.
  - now case_bool_decide.
  - rewrite bool_decide_eq_true_2; [reflexivity | eauto].
  - rewrite bool_decide_eq_false_2.
    + now apply len_persons_registered.
    + rewrite Hk. now intros [? ?].
Qed.

End PersonRegistryNew.

(** ** The invariant of the person registry *)

Section PersonsInvariant.
Import PyStr PyStrFacts.

Lemma persons_wf_world0 : persons_wf world0.
Proof. intros k p H. rewrite world0_persons in H. discriminate. Qed.

Lemma persons_wf_bumped w : persons_wf w -> persons_wf (bumped w).
Proof.
  intros Hw k p H. destruct (Hw k p H) as (?&?&?&?).
  repeat split; try assumption. simpl. lia.
Qed.

Lemma persons_wf_registered name w :
  truthy (strip name) = true ->
  persons_wf w -> persons_wf (registered (new_person name w) w).
Proof.
  intros Ht Hw k p. simpl. rewrite lookup_insert.
  case_decide as Hk.
  - intros [= <-]. subst k. simpl. repeat split; [assumption | lia].
  - intros H. destruct (Hw k p H) as (?&?&?&?).
    repeat split; try assumption. lia.
Qed.

Lemma persons_wf_Person_init name w :
  persons_wf w -> persons_wf (snd (Person_init name w)).
Proof.
  intros Hw. destruct (truthy (strip name)) eqn:Ht.
  - destruct (_persons w !! lower (strip name)) as [q|] eqn:Hk.
    + rewrite (Person_init_duplicate _ _ q Ht Hk).
      now apply persons_wf_bumped.
    + rewrite (Person_init_new _ _ Ht Hk).
      now apply persons_wf_registered.
  - rewrite (Person_init_empty _ _ Ht). now apply persons_wf_bumped.
Qed.

Lemma persons_wf_get_person name w :
  persons_wf w -> persons_wf (snd (get_person name w)).
Proof.
  intros Hw.
  destruct (get_person_cases name w)
    as [[Hf E]|[[Ht (q & Hq & E)]|(Ht & Hk & E)]]; rewrite E; simpl;
    try assumption.
  now apply persons_wf_registered.
Qed.

(** In a well-formed registry a registered key is not empty. *)
Lemma registered_key_truthy name w :
  persons_wf w ->
  is_Some (_persons w !! lower (strip name)) ->
  truthy (strip name) = true.
Proof.
  intros Hw [p Hp]. destruct (Hw _ _ Hp) as (_ & Hk & Hf & _).
  rewrite <- truthy_lower, Hk, truthy_lower. exact Hf.
Qed.

End PersonsInvariant.

(** C4.  In a world where no person is registered under the empty key,
    and for names of ASCII characters.  [get_person "Jane Doe"] followed
    by [get_person "JANE DOE"] returns the identical instance twice.
    For a name that is not blank, [get_person] returns the instance
    registered under the trimmed, lower-cased name and leaves the world
    as it is, when there is one; when there is none it builds a new
    person, whose full name is the trimmed name, registers it under that
    key and returns it.  So two names with the same key get the
    identical instance, and a name that is not blank always gets one.
    For a blank name [get_person] raises the invalid-argument error.
    It never raises the duplicate-key error, for any name.
    [Person(name)] raises the duplicate-key error whenever the key of
    the name is registered; and of two calls [Person("Jane Doe")] the
    second raises it. *)
Theorem C4_person_get_or_create_and_create (w : world) :
  _persons w !! EmptyString = None ->
  (exists p w1,
      get_person "Jane Doe" w = (Return p, w1)
      /\ get_person "JANE DOE" w1 = (Return p, w1))
  /\ (forall n p,
        PyStr.isascii n = true ->
        PyStr.truthy (PyStr.strip n) = true ->
        _persons w !! PyStr.lower (PyStr.strip n) = Some p ->
        get_person n w = (Return p, w))
  /\ (forall n,
        PyStr.isascii n = true ->
        PyStr.truthy (PyStr.strip n) = true ->
        _persons w !! PyStr.lower (PyStr.strip n) = None ->
        get_person n w
        = (Return {| person_oid := next_oid w;
                     _full_name := PyStr.strip n;
                     _normalized_name := PyStr.lower (PyStr.strip n) |},
           {| _ratings := _ratings w;
              _persons :=
                <[PyStr.lower (PyStr.strip n) :=
                    {| person_oid := next_oid w;
                       _full_name := PyStr.strip n;
                       _normalized_name := PyStr.lower (PyStr.strip n) |}]>
                  (_persons w);
              lists := lists w;
              next_oid := S (next_oid w) |}))
  /\ (forall n1 n2,
        PyStr.isascii n1 = true -> PyStr.isascii n2 = true ->
        PyStr.truthy (PyStr.strip n1) = true ->
        same_ignoring_case (PyStr.strip n1) (PyStr.strip n2) ->
        exists p w1,
          get_person n1 w = (Return p, w1)
          /\ get_person n2 w1 = (Return p, w1))
  /\ (forall n,
        PyStr.isascii n = true ->
        PyStr.truthy (PyStr.strip n) = true ->
        exists p w1, get_person n w = (Return p, w1))
  /\ (forall n,
        PyStr.isascii n = true ->
        PyStr.truthy (PyStr.strip n) = false ->
        get_person n w
        = (Raise (ValueError InvalidArgument "Full name cannot be empty"),
           w))
  /\ (forall n msg,
        fst (get_person n w) <> Raise (ValueError DuplicateKey msg))
  /\ (forall n,
        PyStr.isascii n = true ->
        is_Some (_persons w !! PyStr.lower (PyStr.strip n)) ->
        exists msg,
          Person_init n w = (Raise (ValueError DuplicateKey msg), bumped w))
  /\ (exists o w1 msg,
        Person_init "Jane Doe" w = (o, w1)
        /\ Person_init "Jane Doe" w1
           = (Raise (ValueError DuplicateKey msg), bumped w1)).
Proof.
  intros Hw.
  assert (Hret : forall n, PyStr.truthy (PyStr.strip n) = true ->
                           exists p w1, get_person n w = (Return p, w1)).
  { intros n Ht.
    destruct (get_person_cases n w)
      as [[Hf _]|[[_ (q & _ & E)]|(_ & _ & E)]]; [congruence| |]; eauto. }
  assert (Hsame : forall n1 n2,
             PyStr.truthy (PyStr.strip n1) = true ->
             same_ignoring_case (PyStr.strip n1) (PyStr.strip n2) ->
             exists p w1,
               get_person n1 w = (Return p, w1)
               /\ get_person n2 w1 = (Return p, w1)).
  { intros n1 n2 Ht E. destruct (Hret n1 Ht) as (p & w1 & H1).
    exists p, w1. split; [assumption|].
    now apply (get_person_same_instance n1 n2 w). }
  split; [apply Hsame; reflexivity|].
  split; [intros n p _ Ht Hk; now apply get_person_existing|].
  split; [intros n _ Ht Hk; exact (get_person_new n w Ht Hk)|].
  split; [intros n1 n2 _ _; apply Hsame|].
  split; [intros n _; apply Hret|].
  split; [intros n _ Ht; now apply get_person_empty|].
  split.
  { intros n msg.
    destruct (get_person_cases n w)
      as [[_ E]|[[_ (q & _ & E)]|(_ & _ & E)]]; rewrite E; discriminate. }
  split.
  { intros n _ [q Hq].
    assert (Ht : PyStr.truthy (PyStr.strip n) = true).
    { destruct (PyStr.truthy (PyStr.strip n)) eqn:Ht; [reflexivity|].
      apply PyStrFacts.truthy_false in Ht. rewrite Ht in Hq.
      change (PyStr.lower EmptyString) with EmptyString in Hq.
      rewrite Hw in Hq. discriminate Hq. }
    eexists. now apply Person_init_duplicate with (existing := q). }
  destruct (_persons w !! "jane doe") as [q|] eqn:Hk.
  - do 3 eexists. split.
    + now apply Person_init_duplicate with (existing := q).
    + now apply Person_init_duplicate with (existing := q).
  - do 3 eexists. split.
    + now apply Person_init_new.
    + apply Person_init_duplicate
        with (existing := new_person "Jane Doe" w); [reflexivity|].
      simpl. apply lookup_insert_eq.
Qed.

Lemma C4_witness :
  _persons world0 !! EmptyString = None
  /\ (exists p w1,
        get_person "Jane Doe" world0 = (Return p, w1)
        /\ get_person "JANE DOE" w1 = (Return p, w1))
  /\ get_person " Jane Doe " world0
     = (Return {| person_oid := next_oid world0;
                  _full_name := "Jane Doe";
                  _normalized_name := "jane doe" |},
        {| _ratings := _ratings world0;
           _persons :=
             <["jane doe" :=
                 {| person_oid := next_oid world0;
                    _full_name := "Jane Doe";
                    _normalized_name := "jane doe" |}]> (_persons world0);
           lists := lists world0;
           next_oid := S (next_oid world0) |}).
Proof.
  assert (H : _persons world0 !! EmptyString = None)
    by (vm_compute; reflexivity).
  split; [exact H|].
  split; [exact (proj1 (C4_person_get_or_create_and_create world0 H))|].
  exact (proj1 (proj2 (proj2 (C4_person_get_or_create_and_create world0 H)))
           " Jane Doe " eq_refl eq_refl eq_refl).
Defined.

(** ** The factory *)

Section Factory.
Import PyStr PyStrFacts.

Lemma extends_refl w : extends w w.
Proof. repeat split. lia. Qed.

Lemma extends_trans w1 w2 w3 :
  extends w1 w2 -> extends w2 w3 -> extends w1 w3.
Proof.
  intros (R1 & N1 & L1) (R2 & N2 & L2). repeat split.
  - congruence.
  - lia.
  - intros a Ha. rewrite L2 by lia. now apply L1.
Qed.

Lemma extends_bumped w : extends w (bumped w).
Proof. repeat split. simpl. lia. Qed.

Lemma extends_registered p w : extends w (registered p w).
Proof. repeat split. simpl. lia. Qed.

Lemma lists_wf_same w w' :
  lists w' = lists w -> next_oid w <= next_oid w' ->
  lists_wf w -> lists_wf w'.
Proof.
  intros E N H a Ha. rewrite E in Ha. specialize (H a Ha). lia.
Qed.

(** A new list object: its address is the counter, it holds the given
    elements, and nothing older is touched. *)
Lemma new_list_spec l w :
  exists w',
    new_list l w = (Return (next_oid w), w')
    /\ lists w' = <[next_oid w := l]> (lists w)
    /\ _persons w' = _persons w
    /\ _ratings w' = _ratings w
    /\ next_oid w' = S (next_oid w).
Proof. eexists. unfold new_list. run_M. repeat split. Qed.

Lemma new_list_extends l w :
  exists a w',
    new_list l w = (Return a, w')
    /\ extends w w' /\ (lists_wf w -> lists_wf w')
    /\ _persons w' = _persons w
    /\ next_oid w' = S (next_oid w)
    /\ a = next_oid w /\ lists w' !! a = Some l.
Proof.
  destruct (new_list_spec l w) as (w' & E & L & P & Rt & N).
  exists (next_oid w), w'.
  split; [assumption|]. split; [|split; [|split; [|split; [|split]]]];
    try assumption; try reflexivity.
  - split; [assumption|]. split; [lia|].
    intros a Ha. rewrite L. apply lookup_insert_ne. lia.
  - intros Hl a Ha. rewrite L in Ha. rewrite N.
    destruct (decide (a = next_oid w)) as [->|Hne]; [lia|].
    rewrite lookup_insert_ne in Ha by congruence.
    specialize (Hl a Ha). lia.
  - rewrite L. apply lookup_insert_eq.
Qed.

Lemma get_person_extends name w :
  extends w (snd (get_person name w))
  /\ lists (snd (get_person name w)) = lists w.
Proof.
  destruct (get_person_cases name w)
    as [[Hf E]|[[Ht (q & Hq & E)]|(Ht & Hk & E)]]; rewrite E; simpl;
    split; try reflexivity; try apply extends_refl.
  apply extends_registered.
Qed.

Lemma director_names_truthy s :
  Forall (fun n => truthy (strip n) = true) (director_names s).
Proof.
  unfold director_names.
  induction (split "," s) as [|x l IH]; simpl; [constructor|].
  destruct (truthy (strip x)) eqn:Hx; simpl; [|assumption].
  constructor; [|assumption]. now rewrite strip_idem.
Qed.

(** Resolving a list of names that are not blank never raises. *)
Lemma for_each_get_person names :
  Forall (fun n => truthy (strip n) = true) names ->
  forall w, exists ps w',
    for_each get_person names w = (Return ps, w')
    /\ extends w w' /\ lists w' = lists w
    /\ (persons_wf w -> persons_wf w')
    /\ Datatypes.length ps = Datatypes.length names.
Proof.
  induction 1 as [|n names Hn _ IH]; intros w; simpl.
  - exists [], w. split; [reflexivity|]. split; [apply extends_refl|].
    split; [reflexivity|]. split; [tauto | reflexivity].
  - assert (exists p w1, get_person n w = (Return p, w1)) as (p & w1 & E).
    { destruct (get_person_cases n w)
        as [[Hf _]|[[_ (q & _ & E)]|(_ & _ & E)]]; [congruence| |]; eauto. }
    destruct (IH w1) as (ps & w2 & E2 & X2 & L2 & P2 & Len).
    pose proof (get_person_extends n w) as [X1 L1].
    pose proof (persons_wf_get_person n w) as P1.
    rewrite E in X1, L1, P1. simpl in X1, L1, P1.
    exists (p :: ps), w2. unfold bind at 1. rewrite E.
    unfold bind at 1. rewrite E2. run_M.
    split; [reflexivity|].
    split; [exact (extends_trans _ _ _ X1 X2)|].
    split; [congruence|].
    split; [auto|]. simpl. now rewrite Len.
Qed.

Lemma persons_wf_same w w' :
  _persons w' = _persons w -> next_oid w <= next_oid w' ->
  persons_wf w -> persons_wf w'.
Proof.
  intros E N H k p Hk. rewrite E in Hk.
  destruct (H k p Hk) as (?&?&?&?). repeat split; try assumption. lia.
Qed.

(** The directors phase always returns a live list object and keeps
    the world well formed. *)
Lemma directors_phase_spec s w :
  exists ds w' l,
    directors_phase s w = (Return ds, w')
    /\ extends w w'
    /\ (lists_wf w -> lists_wf w')
    /\ (persons_wf w -> persons_wf w')
    /\ lists w' !! ds = Some l
    /\ (truthy s = false -> l = [] /\ _persons w' = _persons w).
Proof.
  unfold directors_phase.
  destruct (new_list_extends [] w)
    as (a & w1 & E1 & X1 & Hl1 & P1 & N1 & Ha & La).
  rewrite (bind_Return _ _ _ _ _ E1).
  destruct (truthy s) eqn:Hs.
  - destruct (for_each_get_person _ (director_names_truthy s) w1)
      as (ps & w2 & E2 & X2 & L2 & P2 & _).
    rewrite (bind_Return _ _ _ _ _ E2).
    destruct (new_list_extends ps w2)
      as (b & w3 & E3 & X3 & Hl3 & P3 & N3 & Hb & Lb).
    exists b, w3, ps.
    split; [assumption|].
    split; [exact (extends_trans _ _ _ X1 (extends_trans _ _ _ X2 X3))|].
    split; [|split; [|split; [assumption | discriminate]]].
    + intros Hl. apply Hl3. apply (lists_wf_same w1); auto.
      now destruct X2 as (_&?&_).
    + intros Hp. apply (persons_wf_same w2); [assumption|lia|].
      apply P2. apply (persons_wf_same w); [assumption|lia|assumption].
  - exists a, w1, []. run_M.
    split; [reflexivity|].
    split; [assumption|].
    split; [assumption|].
    split; [|split; [assumption | intros _; split; [reflexivity | assumption]]].
    intros Hp. apply (persons_wf_same w); [assumption|lia|assumption].
Qed.

End Factory.

Section CreateMovie.
Import PyStr PyStrFacts.

Variable movie_info : gmap string string.
Variable w : world.

Lemma required_values_Some rt t rc g :
  required_values movie_info = Some (rt, t, rc, g) <->
  movie_info !! "rotten_tomatoes_link" = Some rt
  /\ movie_info !! "movie_title" = Some t
  /\ movie_info !! "content_rating" = Some rc
  /\ movie_info !! "genre" = Some g
  /\ truthy rt = true /\ truthy t = true
  /\ truthy rc = true /\ truthy g = true.
Proof.
  unfold required_values. split.
  - destruct (movie_info !! "rotten_tomatoes_link") as [a|]; [|discriminate].
    destruct (movie_info !! "movie_title") as [b|]; [|discriminate].
    destruct (movie_info !! "content_rating") as [c|]; [|discriminate].
    destruct (movie_info !! "genre") as [d|]; [|discriminate].
    destruct (truthy a) eqn:Ta, (truthy b) eqn:Tb, (truthy c) eqn:Tc,
      (truthy d) eqn:Td; simpl; intros H; try discriminate H.
    injection H as <- <- <- <-. repeat split; assumption.
  - intros (-> & -> & -> & -> & -> & -> & -> & ->). reflexivity.
Qed.

Lemma parse_optional_default {A} (parse : string -> option A) o :
  parse_optional parse (Some (default EmptyString o))
  = parse_optional parse o.
Proof. destruct o; reflexivity. Qed.

Lemma create_movie_missing :
  required_values movie_info = None ->
  create_movie movie_info w
  = (Raise (ValueError InvalidArgument "Missing required fields"), w).
Proof.
  unfold required_values, create_movie.
  destruct (movie_info !! "rotten_tomatoes_link") as [a|]; [|reflexivity].
  destruct (movie_info !! "movie_title") as [b|]; [|reflexivity].
  destruct (movie_info !! "content_rating") as [c|]; [|reflexivity].
  destruct (movie_info !! "genre") as [d|]; [|reflexivity].
  destruct (truthy a), (truthy b), (truthy c), (truthy d);
    simpl; intros H; try discriminate; reflexivity.
Qed.

Lemma create_movie_bad_rating rt t rc g :
  required_values movie_info = Some (rt, t, rc, g) ->
  _ratings w !! rc = None ->
  create_movie movie_info w
  = (Raise (ValueError InvalidArgument ("Invalid rating code: " ++ rc)),
     w).
Proof.
  intros (Ha & Hb & Hc & Hd & Ta & Tb & Tc & Td)%required_values_Some Hr.
  unfold create_movie. rewrite Ha, Hb, Hc, Hd, Ta, Tb, Tc, Td. simpl.
  unfold bind at 1. unfold try_except.
  rewrite (get_rating_unregistered _ _ Hr). reflexivity.
Qed.

(** With the required values present and the rating code registered,
    what remains of [create_movie] is the directors phase and the
    dispatch on the genre. *)
Lemma create_movie_body rt t rc g r :
  required_values movie_info = Some (rt, t, rc, g) ->
  _ratings w !! rc = Some r ->
  create_movie movie_info w
  = bind (directors_phase (default EmptyString (movie_info !! "directors")))
      (fun ds =>
         match genre_map !! upper g with
         | None =>
             raise (ValueError InvalidArgument ("Unknown genre: " ++ g))
         | Some c => ret (built_movie movie_info c rt t r ds)
         end) w.
Proof.
  intros (Ha & Hb & Hc & Hd & Ta & Tb & Tc & Td)%required_values_Some Hr.
  unfold create_movie. rewrite !parse_optional_default.
  rewrite Ha, Hb, Hc, Hd, Ta, Tb, Tc, Td. cbn [negb orb].
  unfold bind at 1. unfold try_except.
  rewrite (get_rating_registered _ _ _ Hr).
  unfold directors_phase, bind.
  destruct (new_list [] w) as [[a|e] w1]; [|reflexivity].
  destruct (truthy (default EmptyString (movie_info !! "directors"))).
  - destruct (for_each get_person _ w1) as [[ps|e] w2]; [|reflexivity].
    destruct (new_list ps w2) as [[b|e] w3]; [|reflexivity].
    destruct (genre_map !! upper g); [|reflexivity].
    unfold Movie_init. rewrite Ta, Tb. reflexivity.
  - unfold ret at 1.
    destruct (genre_map !! upper g); [|reflexivity].
    unfold Movie_init. rewrite Ta, Tb. reflexivity.
Qed.

End CreateMovie.

Section CreateMovieCases.
Import PyStr PyStrFacts.

(** [create_movie] accepts every record whose four required values
    are present, whose rating code is registered and whose genre is in
    the table, and builds the movie from the fields of the record. *)
Lemma create_movie_accepts movie_info w rt t rc g r c :
  required_values movie_info = Some (rt, t, rc, g) ->
  _ratings w !! rc = Some r ->
  genre_map !! upper g = Some c ->
  exists ds w' l,
    create_movie movie_info w
    = (Return (built_movie movie_info c rt t r ds), w')
    /\ extends w w'
    /\ (lists_wf w -> lists_wf w')
    /\ (persons_wf w -> persons_wf w')
    /\ lists w' !! ds = Some l
    /\ (truthy (default EmptyString (movie_info !! "directors")) = false ->
        l = [] /\ _persons w' = _persons w).
Proof.
  intros Hreq Hr Hg.
  rewrite (create_movie_body _ _ _ _ _ _ _ Hreq Hr).
  destruct (directors_phase_spec
              (default EmptyString (movie_info !! "directors")) w)
    as (ds & w' & l & E & H).
  exists ds, w', l. rewrite (bind_Return _ _ _ _ _ E), Hg.
  split; [reflexivity | exact H].
Qed.

(** It rejects every other record, always with the invalid-argument
    error. *)
Lemma create_movie_unknown_genre movie_info w rt t rc g r :
  required_values movie_info = Some (rt, t, rc, g) ->
  _ratings w !! rc = Some r ->
  genre_map !! upper g = None ->
  exists w',
    create_movie movie_info w
    = (Raise (ValueError InvalidArgument ("Unknown genre: " ++ g)), w').
Proof.
  intros Hreq Hr Hg.
  rewrite (create_movie_body _ _ _ _ _ _ _ Hreq Hr).
  destruct (directors_phase_spec
              (default EmptyString (movie_info !! "directors")) w)
    as (ds & w' & l & E & H).
  exists w'. now rewrite (bind_Return _ _ _ _ _ E), Hg.
Qed.

(** A record that [create_movie] accepts has the three properties. *)
Lemma create_movie_inv movie_info w m w' :
  create_movie movie_info w = (Return m, w') ->
  exists rt t rc g r,
    required_values movie_info = Some (rt, t, rc, g)
    /\ _ratings w !! rc = Some r
    /\ genre_map !! upper g = Some (class_ m).
Proof.
  intros H.
  destruct (required_values movie_info) as [[[[rt t] rc] g]|] eqn:Hreq.
  - destruct (_ratings w !! rc) as [r|] eqn:Hr.
    + destruct (genre_map !! upper g) as [c|] eqn:Hg.
      * destruct (create_movie_accepts _ w _ _ _ _ _ _ Hreq Hr Hg)
          as (ds & w1 & l & E & _).
        rewrite E in H. injection H as <- <-.
        exists rt, t, rc, g, r. auto.
      * destruct (create_movie_unknown_genre _ w _ _ _ _ _ Hreq Hr Hg)
          as (w1 & E).
        rewrite E in H. discriminate.
    + rewrite (create_movie_bad_rating _ _ _ _ _ _ Hreq Hr) in H.
      discriminate.
  - rewrite (create_movie_missing _ _ Hreq) in H. discriminate.
Qed.

End CreateMovieCases.

(** ** Dispatch on the genre *)

Section GenreTable.
Import PyStr PyStrFacts.

Lemma genre_table_names :
  genre_table.*1
  = ["ACTION & ADVENTURE"; "COMEDY"; "DRAMA"; "HORROR"; "ROMANCE";
     "SCIENCE FICTION & FANTASY"; "WESTERN"].
Proof. reflexivity. Qed.

Lemma genre_table_NoDup : NoDup (genre_table.*1).
Proof. apply (bool_decide_unpack _). vm_compute. exact I. Qed.

Lemma genre_table_capitals :
  Forall (fun e => upper (fst e) = fst e) genre_table.
Proof. repeat constructor. Qed.

Lemma genre_map_lookup k c :
  genre_map !! k = Some c <-> (k, c) ∈ genre_table.
Proof.
  unfold genre_map. symmetry.
  apply elem_of_list_to_map, genre_table_NoDup.
Qed.

(** Looking the upper-cased genre up in the table is matching the
    genre against the names of the table without regard to case. *)
Lemma dispatch_iff g c :
  genre_map !! upper g = Some c <->
  exists name, (name, c) ∈ genre_table /\ same_ignoring_case g name.
Proof.
  rewrite genre_map_lookup. split.
  - intros H. exists (upper g). split; [assumption|].
    unfold same_ignoring_case. now rewrite lower_upper.
  - intros (name & Hin & Hs).
    pose proof genre_table_capitals as Hc.
    rewrite Forall_forall in Hc. specialize (Hc _ Hin). simpl in Hc.
    apply (upper_eq_iff g name Hc) in Hs. now rewrite Hs.
Qed.

Lemma dispatch_none g :
  (forall name c, (name, c) ∈ genre_table -> ~ same_ignoring_case g name) ->
  genre_map !! upper g = None.
Proof.
  intros H. destruct (genre_map !! upper g) as [c|] eqn:E; [|reflexivity].
  apply dispatch_iff in E as (name & Hin & Hs).
  destruct (H name c Hin Hs).
Qed.

Lemma required_values_genre movie_info rt t rc g g' :
  movie_info !! "genre" = Some g ->
  required_values movie_info = Some (rt, t, rc, g') -> g' = g.
Proof.
  intros Hg (_ & _ & _ & Hg' & _)%required_values_Some. congruence.
Qed.

End GenreTable.

(** C6.  For a record whose genre [g] is of ASCII characters.  When the
    required values are present and the rating code is registered, and
    [g] is, without regard to the case of its letters, one of the seven
    names ACTION & ADVENTURE, COMEDY, DRAMA, HORROR, ROMANCE, SCIENCE
    FICTION & FANTASY and WESTERN, then [create_movie] returns an
    instance of the class of that name: [ActionAdventure], [Comedy],
    [Drama], [Horror], [Romance], [ScienceFictionFantasy] and [Western]
    in that order.  When [g] is none of the seven names, [create_movie]
    raises the invalid-argument error.  The movie returned for a genre
    that is "Comedy" in any letter case is a [Comedy], has
    [is_slapstick] and has neither [is_cosy] nor [is_scary]. *)
Theorem C6_genre_dispatch (movie_info : gmap string string) (w : world)
    (g : string) :
  movie_info !! "genre" = Some g ->
  PyStr.isascii g = true ->
  (forall rt t rc r name c,
      required_values movie_info = Some (rt, t, rc, g) ->
      _ratings w !! rc = Some r ->
      (name, c)
      ∈ [("ACTION & ADVENTURE", ActionAdventure); ("COMEDY", Comedy);
           ("DRAMA", Drama); ("HORROR", Horror); ("ROMANCE", Romance);
           ("SCIENCE FICTION & FANTASY", ScienceFictionFantasy);
           ("WESTERN", Western)] ->
      same_ignoring_case g name ->
      exists m w', create_movie movie_info w = (Return m, w')
                   /\ class_ m = c)
  /\ ((forall name c,
         (name, c)
         ∈ [("ACTION & ADVENTURE", ActionAdventure); ("COMEDY", Comedy);
           ("DRAMA", Drama); ("HORROR", Horror); ("ROMANCE", Romance);
           ("SCIENCE FICTION & FANTASY", ScienceFictionFantasy);
           ("WESTERN", Western)] ->
         ~ same_ignoring_case g name) ->
      exists msg w',
        create_movie movie_info w
        = (Raise (ValueError InvalidArgument msg), w'))
  /\ (forall m w',
        create_movie movie_info w = (Return m, w') ->
        same_ignoring_case g "Comedy" ->
        class_ m = Comedy
        /\ hasattr m "is_slapstick" = true
        /\ hasattr m "is_cosy" = false
        /\ hasattr m "is_scary" = false).
Proof.
  intros Hg _. split; [|split].
  - intros rt t rc r name c Hreq Hr Hin Hs.
    change ([("ACTION & ADVENTURE", ActionAdventure); ("COMEDY", Comedy);
           ("DRAMA", Drama); ("HORROR", Horror); ("ROMANCE", Romance);
           ("SCIENCE FICTION & FANTASY", ScienceFictionFantasy);
           ("WESTERN", Western)]) with genre_table in Hin.
    assert (Hc : genre_map !! PyStr.upper g = Some c).
    { apply dispatch_iff. eauto. }
    destruct (create_movie_accepts _ w _ _ _ _ _ _ Hreq Hr Hc)
      as (ds & w' & l & E & _).
    eexists _, w'. split; [exact E | reflexivity].
  - intros Hnone.
    change ([("ACTION & ADVENTURE", ActionAdventure); ("COMEDY", Comedy);
           ("DRAMA", Drama); ("HORROR", Horror); ("ROMANCE", Romance);
           ("SCIENCE FICTION & FANTASY", ScienceFictionFantasy);
           ("WESTERN", Western)]) with genre_table in Hnone.
    apply dispatch_none in Hnone.
    destruct (required_values movie_info) as [[[[rt t] rc] g']|] eqn:Hreq.
    + assert (g' = g) as -> by (eapply required_values_genre; eauto).
      destruct (_ratings w !! rc) as [r|] eqn:Hr.
      * destruct (create_movie_unknown_genre _ w _ _ _ _ _ Hreq Hr Hnone)
          as (w' & E).
        eauto.
      * rewrite (create_movie_bad_rating _ _ _ _ _ _ Hreq Hr). eauto.
    + rewrite (create_movie_missing _ _ Hreq). eauto.
  - intros m w' E Hs.
    destruct (create_movie_inv _ _ _ _ E)
      as (rt & t & rc & g' & r & Hreq & _ & Hc).
    assert (g' = g) as -> by (eapply required_values_genre; eauto).
    assert (Hcomedy : genre_map !! PyStr.upper g = Some Comedy).
    { apply dispatch_iff. exists "COMEDY". split; [|exact Hs].
      apply genre_map_lookup. reflexivity. }
    assert (Hm : class_ m = Comedy) by congruence.
    split; [exact Hm|]. unfold hasattr. rewrite Hm.
    repeat split.
Qed.

Lemma C6_witness :
  MOVIE_INFO !! "genre" = Some "COMEDY"
  /\ PyStr.isascii "COMEDY" = true
  /\ exists m w',
      create_movie MOVIE_INFO world0 = (Return m, w') /\ class_ m = Comedy.
Proof.
  split; [reflexivity|]. split; [reflexivity|].
  refine (proj1 (C6_genre_dispatch MOVIE_INFO world0 "COMEDY" eq_refl eq_refl)
            "m/1000640-all_of_me" "All of Me" "PG" PG "COMEDY" Comedy
            eq_refl eq_refl _ eq_refl).
  apply genre_map_lookup. reflexivity.
Defined.

(** ** What [int] and [strptime] accept *)

Section IntFacts.
Import PyStr PyStrFacts.


Lemma all_chars_app p a b :
  all_chars p (a +:+ b) = all_chars p a && all_chars p b.
Proof.
  induction a as [|c r IH]; simpl; [reflexivity|].
  change (String c r +:+ b) with (String c (r +:+ b)). simpl.
  now rewrite IH, andb_assoc.
Qed.

















End IntFacts.

Section DateFacts.
Import PyStr PyStrFacts.
















End DateFacts.



(** ** Required fields *)

Section Blanking.
Import PyStr PyStrFacts.

Variable movie_info : gmap string string.

Lemma required_values_blank_required k :
  k ∈ required_fields -> required_values (blank k movie_info) = None.
Proof.
  intros Hk.
  destruct (required_values (blank k movie_info))
    as [[[[rt t] rc] g]|] eqn:E; [|reflexivity].
  apply required_values_Some in E
    as (Ha & Hb & Hc & Hd & Ta & Tb & Tc & Td).
  unfold required_fields, blank in *.
  repeat (apply elem_of_cons in Hk as [->|Hk]);
    [| | | | apply elem_of_nil in Hk; contradiction].
  - rewrite lookup_insert_eq in Ha. injection Ha as <-. discriminate Ta.
  - rewrite lookup_insert_eq in Hb. injection Hb as <-. discriminate Tb.
  - rewrite lookup_insert_eq in Hc. injection Hc as <-. discriminate Tc.
  - rewrite lookup_insert_eq in Hd. injection Hd as <-. discriminate Td.
Qed.

Lemma required_values_blank_other k :
  k ∉ required_fields ->
  required_values (blank k movie_info) = required_values movie_info.
Proof.
  unfold required_fields, blank. intros Hk.
  unfold required_values.
  rewrite !lookup_insert_ne; [reflexivity|..];
    intros ->; apply Hk; set_solver.
Qed.

End Blanking.

(** C5, the counterexample.  The record of the tests is accepted; with
    its production company blanked it is accepted too, and the company
    of the movie is then the empty string, not an absent value. *)
Lemma C5_counterexample :
  exists m w1 m' w2,
    create_movie MOVIE_INFO world0 = (Return m, w1)
    /\ ("production_company" ∉ required_fields)
    /\ create_movie (blank "production_company" MOVIE_INFO) world0
       = (Return m', w2)
    /\ company m' = Some EmptyString
    /\ company m' <> None.
Proof.
  do 4 eexists. split; [vm_compute; reflexivity|].
  split; [apply (bool_decide_unpack _); vm_compute; exact I|].
  split; [vm_compute; reflexivity|].
  split; [reflexivity | discriminate].
Qed.

(** C5, amended.  Given a record that [create_movie] accepts in a world:
    blanking any one of the link, the title, the rating code and the
    genre makes [create_movie] raise the invalid-argument error in that
    world; blanking any other single field is accepted, and in the movie
    returned blanked directors give the empty list, a blanked release
    date, streaming date, runtime, score or vote count gives the
    attribute absent, and a blanked production company gives the empty
    string as company. *)
Theorem C5_blanking_a_field (movie_info : gmap string string) (w : world)
    (m : Movie) (w1 : world) :
  create_movie movie_info w = (Return m, w1) ->
  (forall k, k ∈ required_fields ->
     create_movie (blank k movie_info) w
     = (Raise (ValueError InvalidArgument "Missing required fields"), w))
  /\ (forall k, k ∉ required_fields ->
        exists m' w',
          create_movie (blank k movie_info) w = (Return m', w')
          /\ (k = "directors" -> list_at w' (_directors m') = [])
          /\ (k = "original_release_date" -> release_date m' = None)
          /\ (k = "streaming_release_date" -> streaming_date m' = None)
          /\ (k = "runtime" -> length m' = None)
          /\ (k = "audience_rating" -> score m' = None)
          /\ (k = "audience_count" -> count m' = None)
          /\ (k = "production_company" -> company m' = Some EmptyString)).
Proof.
  intros H.
  destruct (create_movie_inv _ _ _ _ H)
    as (rt & t & rc & g & r & Hreq & Hr & Hc).
  split.
  - intros k Hk. apply create_movie_missing.
    now apply required_values_blank_required.
  - intros k Hk.
    rewrite <- (required_values_blank_other movie_info k Hk) in Hreq.
    destruct (create_movie_accepts _ w _ _ _ _ _ _ Hreq Hr Hc)
      as (ds & w' & l & E & _ & _ & _ & Hl & Hd).
    eexists _, w'. split; [exact E|].
    unfold release_date, streaming_date, length, score, count, company,
      list_at, blank. simpl.
    repeat split; intros ->; rewrite ?lookup_insert_eq; try reflexivity.
    rewrite Hl. simpl. apply Hd. unfold blank.
    now rewrite lookup_insert_eq.
Qed.

Lemma C5_witness :
  (exists m w1, create_movie MOVIE_INFO world0 = (Return m, w1))
  /\ exists m' w',
      create_movie (blank "runtime" MOVIE_INFO) world0 = (Return m', w')
      /\ length m' = None.
Proof.
  assert (H : exists m w1, create_movie MOVIE_INFO world0 = (Return m, w1))
    by (do 2 eexists; vm_compute; reflexivity).
  split; [exact H|].
  destruct H as (m & w1 & H).
  assert (Hk : "runtime" ∉ required_fields)
    by (apply (bool_decide_unpack _); vm_compute; exact I).
  destruct (proj2 (C5_blanking_a_field _ _ _ _ H) "runtime" Hk)
    as (m' & w' & E & _ & _ & _ & Hl & _).
  exists m', w'. split; [exact E | exact (Hl eq_refl)].
Defined.

(** ** Predicates of the movies *)

(** Where the code ["PG"] is registered as [PG], [is_scary] is the
    comparison of the rating with [PG]. *)
Lemma is_scary_spec m w :
  _ratings w !! "PG" = Some PG ->
  is_scary m w = (Return (Rating.gt (rating m) PG), w).
Proof.
  intros H. unfold is_scary.
  now rewrite (bind_Return _ _ _ _ _ (get_rating_registered _ _ _ H)).
Qed.

(** On the five instances whose code is in [_rating_order] the answer is
    the one of the contract. *)
Lemma is_scary_first_five m w :
  _ratings w !! "PG" = Some PG ->
  (rating m ∈ [NR; G; PG] -> is_scary m w = (Return false, w))
  /\ (rating m ∈ [PG13; R] -> is_scary m w = (Return true, w)).
Proof.
  intros H. rewrite (is_scary_spec m w H). split; intros Hr.
  - repeat (apply elem_of_cons in Hr as [->|Hr]); try reflexivity.
    now apply elem_of_nil in Hr.
  - repeat (apply elem_of_cons in Hr as [->|Hr]); try reflexivity.
    now apply elem_of_nil in Hr.
Qed.

(** C3 (the code at the failing input).  The record of the tests, with
    the genre "Horror" and the rating code "NC-17", gives a [Horror]
    movie whose rating is the instance [NC17]; [is_scary] returns false
    for it.  The comparison [NC17 > PG] falls back to the comparison of
    the code strings, and "NC-17" sorts before "PG". *)
Theorem C3_is_scary_false_for_NC17 :
  exists m w,
    create_movie
      (<["genre" := "Horror"]> (<["content_rating" := "NC-17"]> MOVIE_INFO))
      world0
    = (Return m, w)
    /\ class_ m = Horror
    /\ rating m = NC17
    /\ is_scary m w = (Return false, w)
    /\ Rating.gt NC17 PG = false.
Proof.
  do 2 eexists. split; [vm_compute; reflexivity|].
  repeat split.
Qed.

(** C8.  A Comedy with score 67, vote count 14346, rating PG and length
    93 has a relevant score, is not slapstick and is not short; a
    Romance of length 85 is cosy. *)
Theorem C8_predicates_on_the_example (c r : Movie) :
  class_ c = Comedy -> score c = Some 67%Z -> count c = Some 14346%Z ->
  rating c = PG -> length c = Some 93%Z ->
  class_ r = Romance -> length r = Some 85%Z ->
  relevant_score c = true
  /\ is_slapstick c = false
  /\ is_short c = false
  /\ is_cosy r = true.
Proof.
  unfold is_slapstick, is_short, is_cosy, relevant_score, score, count,
    rating, length.
  intros _ Hs Hc _ Hl _ Hr. rewrite Hs, Hc, Hl, Hr. repeat split.
Qed.

Lemma C8_witness :
  let c := built_movie MOVIE_INFO Comedy "m/1000640-all_of_me" "All of Me"
             PG 8 in
  let r := built_movie (<["runtime" := "85"]> MOVIE_INFO) Romance
             "m/1000640-all_of_me" "All of Me" PG 8 in
  (class_ c = Comedy /\ score c = Some 67%Z /\ count c = Some 14346%Z
   /\ rating c = PG /\ length c = Some 93%Z
   /\ class_ r = Romance /\ length r = Some 85%Z)
  /\ relevant_score c = true
  /\ is_slapstick c = false
  /\ is_short c = false
  /\ is_cosy r = true.
Proof.
  intros c r.
  split; [repeat split|].
  apply (C8_predicates_on_the_example c r); reflexivity.
Defined.

(** ** The list of directors *)

Section DirectorsCopy.

(** The movies that the factory builds in a well-formed world are
    movies of the world it leaves. *)
Lemma create_movie_movie_in movie_info w m w' :
  lists_wf w ->
  create_movie movie_info w = (Return m, w') ->
  movie_in w' m /\ lists_wf w'.
Proof.
  intros Hl H.
  destruct (create_movie_inv _ _ _ _ H)
    as (rt & t & rc & g & r & Hreq & Hr & Hc).
  destruct (create_movie_accepts _ w _ _ _ _ _ _ Hreq Hr Hc)
    as (ds & w2 & l & E & _ & Hl2 & _ & Hds & _).
  rewrite E in H. injection H as <- <-.
  split; [|auto]. unfold movie_in. simpl. apply (Hl2 Hl). eauto.
Qed.

Lemma movie_in_extends w w' m :
  extends w w' -> movie_in w m -> movie_in w' m.
Proof. intros (_ & N & _). unfold movie_in. lia. Qed.

Lemma directors_spec m w :
  directors m w
  = (Return (next_oid w),
     {| _ratings := _ratings w; _persons := _persons w;
        lists := <[next_oid w := list_at w (_directors m)]> (lists w);
        next_oid := S (next_oid w) |}).
Proof. reflexivity. Qed.

Lemma mutate_spec a f w :
  mutate a f w
  = (Return tt,
     {| _ratings := _ratings w; _persons := _persons w;
        lists := <[a := f (list_at w a)]> (lists w);
        next_oid := next_oid w |}).
Proof. reflexivity. Qed.

Lemma list_at_insert_eq w a l h :
  lists w = <[a := l]> h -> list_at w a = l.
Proof. unfold list_at. intros ->. now rewrite lookup_insert_eq. Qed.

Lemma list_at_insert_ne w w0 a b l :
  lists w = <[a := l]> (lists w0) -> a <> b ->
  list_at w b = list_at w0 b.
Proof. unfold list_at. intros -> H. now rewrite lookup_insert_ne. Qed.

End DirectorsCopy.

(** C9.  For a movie of the world, [directors] returns a new list
    object, different from the one the movie holds, with the same
    elements.  Whatever in-place change [f] is then made to the returned
    list, the list that the movie holds has the elements it had, and
    the next call of [directors] returns a list with those elements. *)
Theorem C9_directors_is_a_copy (m : Movie) (w : world)
    (f : list Person -> list Person) :
  movie_in w m ->
  exists a w1,
    directors m w = (Return a, w1)
    /\ a <> _directors m
    /\ list_at w1 a = list_at w (_directors m)
    /\ list_at w1 (_directors m) = list_at w (_directors m)
    /\ exists w2,
        mutate a f w1 = (Return tt, w2)
        /\ list_at w2 a = f (list_at w (_directors m))
        /\ list_at w2 (_directors m) = list_at w (_directors m)
        /\ exists b w3,
            directors m w2 = (Return b, w3)
            /\ list_at w3 b = list_at w (_directors m).
Proof.
  unfold movie_in. intros Hm.
  assert (Hne : next_oid w <> _directors m) by lia.
  pose proof (directors_spec m w) as E1.
  remember (snd (directors m w)) as w1 eqn:Hw1.
  rewrite directors_spec in Hw1. simpl in Hw1.
  exists (next_oid w), w1. rewrite Hw1 at 1.
  split; [exact E1|]. split; [exact Hne|].
  assert (A1 : list_at w1 (next_oid w) = list_at w (_directors m)).
  { apply (list_at_insert_eq _ _ _ (lists w)). now rewrite Hw1. }
  assert (D1 : list_at w1 (_directors m) = list_at w (_directors m)).
  { apply (list_at_insert_ne w1 w (next_oid w)
             _ (list_at w (_directors m))); [now rewrite Hw1 | exact Hne]. }
  split; [exact A1|]. split; [exact D1|].
  pose proof (mutate_spec (next_oid w) f w1) as E2.
  remember (snd (mutate (next_oid w) f w1)) as w2 eqn:Hw2.
  rewrite mutate_spec in Hw2. simpl in Hw2.
  exists w2. rewrite Hw2 at 1.
  split; [exact E2|].
  assert (A2 : list_at w2 (next_oid w) = f (list_at w (_directors m))).
  { rewrite <- A1. apply (list_at_insert_eq _ _ _ (lists w1)).
    now rewrite Hw2. }
  assert (D2 : list_at w2 (_directors m) = list_at w (_directors m)).
  { rewrite <- D1.
    apply (list_at_insert_ne w2 w1 (next_oid w)
             _ (f (list_at w1 (next_oid w)))); [now rewrite Hw2 | exact Hne]. }
  split; [exact A2|]. split; [exact D2|].
  eexists _, _. split; [apply directors_spec|].
  rewrite <- D2. now apply (list_at_insert_eq _ _ _ (lists w2)).
Qed.

Lemma C9_witness :
  let m := built_movie MOVIE_INFO Comedy "m/1000640-all_of_me" "All of Me"
             PG 8 in
  let w := snd (create_movie MOVIE_INFO world0) in
  (fst (create_movie MOVIE_INFO world0) = Return m /\ movie_in w m)
  /\ exists a w1 w2 b w3,
      directors m w = (Return a, w1)
      /\ list_clear a w1 = (Return tt, w2)
      /\ list_at w2 a = []
      /\ directors m w2 = (Return b, w3)
      /\ list_at w3 b = list_at w (_directors m).
Proof.
  intros m w.
  assert (H : movie_in w m) by (vm_compute; lia).
  split; [split; [vm_compute; reflexivity | exact H]|].
  destruct (C9_directors_is_a_copy m w (fun _ => []) H)
    as (a & w1 & E1 & _ & _ & _ & w2 & E2 & L2 & _ & b & w3 & E3 & L3).
  exists a, w1, w2, b, w3. repeat split; assumption.
Defined.

(** ** Counting the persons *)

(** [count_person_objects] prints the size of the registry and leaves
    the world as it was. *)
Lemma count_person_objects_spec w :
  count_person_objects w
  = (Return (String.append "
Number of Person objects created: " (pretty (size (_persons w)))), w).
Proof. reflexivity. Qed.

(** C10 (the code at the failing input).  The class [Person] binds no
    counting operation: [Person.persons_count], which the tests call,
    raises [AttributeError], and so does [Person.count].  The size of
    the registry is only printed by [count_person_objects] of the menu
    program, which returns nothing. *)
Theorem C10_Person_has_no_count_operation :
  class_getattr "Person" Person_members "persons_count"
  = Raise (AttributeError
             "type object 'Person' has no attribute 'persons_count'")
  /\ class_getattr "Person" Person_members "count"
     = Raise (AttributeError "type object 'Person' has no attribute 'count'")
  /\ Person_members
     = ["_persons"; "__init__"; "full_name"; "__repr__"; "__str__"; "__eq__";
        "__hash__"].
Proof. repeat split. Qed.

(** * Further properties *)

(** ** Defining a rating *)

Section DefineRating.
Import PyStr PyStrFacts.

Variables (code description : string) (w : world).

Lemma MovieRating_init_empty :
  truthy code = false \/ truthy description = false ->
  MovieRating_init code description w
  = (Raise (ValueError InvalidArgument "Code and description cannot be empty"),
     bumped w).
Proof.
  intros H. unfold MovieRating_init. run_M.
  destruct H as [-> | ->]; [reflexivity|].
  now rewrite orb_true_r.
Qed.

Lemma MovieRating_init_duplicate r :
  truthy code = true -> truthy description = true ->
  _ratings w !! code = Some r ->
  MovieRating_init code description w
  = (Raise (ValueError DuplicateKey
              ("Rating with code '" ++ code ++ "' already exists")),
     bumped w).
Proof.
  intros Hc Hd Hr. unfold MovieRating_init, contains. run_M.
  rewrite Hc, Hd. simpl. now rewrite Hr.
Qed.

Lemma MovieRating_init_new :
  truthy code = true -> truthy description = true ->
  _ratings w !! code = None ->
  MovieRating_init code description w
  = (Return (new_rating code description w),
     rated (new_rating code description w) w).
Proof.
  intros Hc Hd Hr. unfold MovieRating_init, contains. run_M.
  rewrite Hc, Hd. simpl. now rewrite Hr.
Qed.

End DefineRating.

(** X1.  [MovieRating(code, description)] with both arguments not empty
    and the code not yet registered returns a rating with that code and
    description; from then on [get_rating(code)] returns that very
    instance, the lookup of every other code answers as before, the
    person registry is untouched, and a second [MovieRating] with the
    same code raises the duplicate-key error. *)
Theorem X1_define_then_lookup (code description : string) (w : world) :
  PyStr.truthy code = true -> PyStr.truthy description = true ->
  _ratings w !! code = None ->
  exists r w',
    MovieRating_init code description w = (Return r, w')
    /\ _code r = code /\ _description r = description
    /\ get_rating code w' = (Return r, w')
    /\ (forall c, c <> code -> fst (get_rating c w') = fst (get_rating c w))
    /\ _persons w' = _persons w
    /\ (forall d, PyStr.truthy d = true ->
                  exists msg,
                    MovieRating_init code d w'
                    = (Raise (ValueError DuplicateKey msg), bumped w')).
Proof.
  intros Hc Hd Hr.
  exists (new_rating code description w),
    (rated (new_rating code description w) w).
  split; [now apply MovieRating_init_new|].
  split; [reflexivity|]. split; [reflexivity|].
  assert (Hl : _ratings (rated (new_rating code description w) w) !! code
               = Some (new_rating code description w)).
  { simpl. apply lookup_insert_eq. }
  split; [now apply get_rating_registered|].
  split; [|split; [reflexivity|]].
  - intros c Hne. unfold get_rating. run_M.
    rewrite lookup_insert_ne by congruence.
    now destruct (_ratings w !! c).
  - intros d Hd'. eexists.
    now apply MovieRating_init_duplicate with (r := new_rating code description w).
Qed.

Lemma X1_witness :
  (PyStr.truthy "PG28" = true /\ PyStr.truthy "Nieuwe code" = true
   /\ _ratings world0 !! "PG28" = None)
  /\ exists r w',
      MovieRating_init "PG28" "Nieuwe code" world0 = (Return r, w')
      /\ get_rating "PG28" w' = (Return r, w').
Proof.
  assert (H3 : _ratings world0 !! "PG28" = None) by (vm_compute; reflexivity).
  split; [repeat split; exact H3|].
  destruct (X1_define_then_lookup "PG28" "Nieuwe code" world0
              eq_refl eq_refl H3)
    as (r & w' & E & _ & _ & G & _).
  exists r, w'. split; assumption.
Defined.

(** X2.  When [MovieRating(code, description)] raises, the registry of
    ratings is what it was (no registered rating is replaced), and the
    error is the invalid-argument error exactly when the code or the
    description is empty (also when the code is registered already),
    the duplicate-key error otherwise, the code being registered. *)
Theorem X2_define_rejects (code description : string) (w : world)
    (e : exn) (w' : world) :
  MovieRating_init code description w = (Raise e, w') ->
  _ratings w' = _ratings w
  /\ _persons w' = _persons w
  /\ ((PyStr.truthy code = false \/ PyStr.truthy description = false)
       /\ e = ValueError InvalidArgument "Code and description cannot be empty"
      \/ (PyStr.truthy code = true /\ PyStr.truthy description = true
          /\ is_Some (_ratings w !! code)
          /\ e = ValueError DuplicateKey
                   ("Rating with code '" ++ code ++ "' already exists"))).
Proof.
  intros H.
  destruct (PyStr.truthy code) eqn:Hc; [destruct (PyStr.truthy description) eqn:Hd|].
  - destruct (_ratings w !! code) as [r|] eqn:Hr.
    + rewrite (MovieRating_init_duplicate _ _ _ r Hc Hd Hr) in H.
      injection H as <- <-. repeat split. right. repeat split. eauto.
    + rewrite (MovieRating_init_new _ _ _ Hc Hd Hr) in H. discriminate.
  - rewrite (MovieRating_init_empty code description w) in H by auto.
    injection H as <- <-. repeat split. left. auto.
  - rewrite (MovieRating_init_empty code description w) in H by auto.
    injection H as <- <-. repeat split. left. auto.
Qed.

Lemma X2_witness :
  exists e w',
    MovieRating_init "PG" "" world0 = (Raise e, w')
    /\ _ratings w' = _ratings world0
    /\ e = ValueError InvalidArgument "Code and description cannot be empty".
Proof.
  assert (H : MovieRating_init "PG" "" world0
              = (Raise (ValueError InvalidArgument
                          "Code and description cannot be empty"),
                 bumped world0)) by (vm_compute; reflexivity).
  destruct (X2_define_rejects _ _ _ _ _ H) as (Hr & _ & _).
  do 2 eexists. split; [exact H|]. split; [exact Hr | reflexivity].
Defined.

(** ** The order of the ratings *)

Section RatingOrder.
Import PyStr.

Lemma index_lookup l x i : index l x = Some i -> l !! i = Some x.
Proof.
  revert i. induction l as [|y l IH]; intros i; simpl; [discriminate|].
  destruct (String.eqb_spec y x) as [->|Hne].
  - now intros [= <-].
  - destruct (index l x) as [j|]; simpl; [|discriminate].
    intros [= <-]. simpl. now apply IH.
Qed.

Lemma index_self l x i : l !! i = Some x -> is_Some (index l x).
Proof.
  revert i. induction l as [|y l IH]; intros i; [now destruct i|].
  simpl. destruct (String.eqb_spec y x); [eauto|].
  destruct i as [|i]; simpl; [congruence|].
  intros H. destruct (IH i H) as [j ->]. simpl. eauto.
Qed.

Lemma string_ltb_lt x y :
  String.ltb x y = true <-> OrderedTypeEx.String_as_OT.lt x y.
Proof.
  unfold String.ltb. rewrite <- OrderedTypeEx.String_as_OT.cmp_lt.
  unfold OrderedTypeEx.String_as_OT.cmp.
  destruct (String.compare x y); split; congruence.
Qed.

Lemma string_ltb_trans x y z :
  String.ltb x y = true -> String.ltb y z = true -> String.ltb x z = true.
Proof.
  rewrite !string_ltb_lt. apply OrderedTypeEx.String_as_OT.lt_trans.
Qed.

(** Of two strings exactly one is before the other, or they are equal. *)
Lemma string_trichotomy x y :
  (String.ltb x y, String.eqb x y, String.ltb y x)
  ∈ [(true, false, false); (false, true, false); (false, false, true)].
Proof.
  unfold String.ltb. rewrite (String.compare_antisym y x).
  destruct (String.eqb_spec x y) as [->|Hne].
  - assert (E : String.compare y y = Eq)
      by now apply OrderedTypeEx.String_as_OT.cmp_eq.
    rewrite E. simpl. set_solver.
  - destruct (String.compare x y) eqn:E; simpl; [|set_solver..].
    apply String.compare_eq_iff in E. contradiction.
Qed.

Lemma nat_trichotomy i j :
  (Nat.ltb i j, Nat.eqb i j, Nat.ltb j i)
  ∈ [(true, false, false); (false, true, false); (false, false, true)].
Proof.
  destruct (Nat.ltb_spec i j), (Nat.eqb_spec i j), (Nat.ltb_spec j i);
    try lia; set_solver.
Qed.

Lemma eq_listed a b i j :
  index _rating_order (code a) = Some i ->
  index _rating_order (code b) = Some j ->
  Rating.eq a b = Nat.eqb i j.
Proof.
  intros Ha Hb. unfold Rating.eq.
  destruct (String.eqb_spec (code a) (code b)) as [E|Hne].
  - rewrite E in Ha. rewrite Ha in Hb. injection Hb as <-.
    symmetry. apply Nat.eqb_refl.
  - symmetry. apply Nat.eqb_neq. intros <-.
    apply index_lookup in Ha, Hb. congruence.
Qed.

Lemma rating_trichotomy a b :
  (Rating.lt a b, Rating.eq a b, Rating.lt b a)
  ∈ [(true, false, false); (false, true, false); (false, false, true)].
Proof.
  unfold Rating.lt.
  destruct (index _rating_order (code a)) as [i|] eqn:Ha;
    destruct (index _rating_order (code b)) as [j|] eqn:Hb;
    try apply string_trichotomy.
  rewrite (eq_listed a b i j Ha Hb). apply nat_trichotomy.
Qed.

End RatingOrder.

(** X3.  For any two ratings, predefined or not, exactly one of
    [a < b], [a == b] and [b < a] holds; so [a > b] is [b < a] and
    [a >= b] is [b <= a]. *)
Theorem X3_comparison_is_total_and_asymmetric (a b : MovieRating) :
  (Rating.lt a b, Rating.eq a b, Rating.lt b a)
  ∈ [(true, false, false); (false, true, false); (false, false, true)]
  /\ Rating.gt a b = Rating.lt b a
  /\ Rating.ge a b = Rating.le b a.
Proof.
  pose proof (rating_trichotomy a b) as H.
  split; [exact H|].
  unfold Rating.gt, Rating.ge, Rating.le.
  assert (E : Rating.eq b a = Rating.eq a b) by apply String.eqb_sym.
  rewrite E.
  repeat (apply elem_of_cons in H as [H|H]);
    [| | |now apply elem_of_nil in H];
    injection H as -> -> ->; split; reflexivity.
Qed.

(** X4.  Among ratings whose codes are all in [_rating_order], and among
    ratings none of whose codes is in it, [<] is transitive. *)
Theorem X4_comparison_is_transitive (a b c : MovieRating) :
  (is_Some (PyStr.index _rating_order (code a))
   /\ is_Some (PyStr.index _rating_order (code b))
   /\ is_Some (PyStr.index _rating_order (code c)))
  \/ (PyStr.index _rating_order (code a) = None
      /\ PyStr.index _rating_order (code b) = None
      /\ PyStr.index _rating_order (code c) = None) ->
  Rating.lt a b = true -> Rating.lt b c = true -> Rating.lt a c = true.
Proof.
  unfold Rating.lt.
  intros [([i Ha] & [j Hb] & [k Hc]) | (Ha & Hb & Hc)];
    rewrite Ha, Hb, ?Hc.
  - intros H1 H2. apply Nat.ltb_lt in H1, H2. apply Nat.ltb_lt. lia.
  - apply string_ltb_trans.
Qed.

Lemma X4_witness :
  (is_Some (PyStr.index _rating_order (code G))
   /\ is_Some (PyStr.index _rating_order (code PG))
   /\ is_Some (PyStr.index _rating_order (code R)))
  /\ Rating.lt G R = true.
Proof.
  assert (H : is_Some (PyStr.index _rating_order (code G))
              /\ is_Some (PyStr.index _rating_order (code PG))
              /\ is_Some (PyStr.index _rating_order (code R))).
  { repeat split; vm_compute; eauto. }
  split; [exact H|].
  exact (X4_comparison_is_transitive G PG R (or_introl H) eq_refl eq_refl).
Defined.

(** ** The worlds that the program reaches *)

Section Evolution.
Import PyStr PyStrFacts.

Lemma grows_refl w : grows w w.
Proof. repeat split; auto. Qed.

Lemma grows_trans w1 w2 w3 : grows w1 w2 -> grows w2 w3 -> grows w1 w3.
Proof.
  intros (R1 & P1 & N1 & L1) (R2 & P2 & N2 & L2).
  split; [now transitivity (_ratings w2)|].
  split; [now transitivity (_persons w2)|].
  split; [lia|]. intros a Ha. rewrite L2 by lia. now apply L1.
Qed.

Lemma evolves_refl w : evolves w w.
Proof. split; [apply grows_refl | auto]. Qed.

Lemma evolves_trans w1 w2 w3 : evolves w1 w2 -> evolves w2 w3 -> evolves w1 w3.
Proof.
  intros [G1 I1] [G2 I2]. split; [now apply (grows_trans w1 w2) | auto].
Qed.

Lemma invariant_world0 : invariant world0.
Proof.
  split; [apply persons_wf_world0|]. split.
  - intros k1 k2 p q H. rewrite world0_persons, lookup_empty in H.
    discriminate H.
  - assert (E : lists world0 = ∅) by (vm_compute; reflexivity).
    intros a [l H]. rewrite E, lookup_empty in H. discriminate H.
Qed.

(** A world that differs by the counter only. *)
Lemma evolves_same w w' :
  _ratings w' = _ratings w -> _persons w' = _persons w ->
  lists w' = lists w -> next_oid w <= next_oid w' -> evolves w w'.
Proof.
  intros R P L N. split.
  - split; [now rewrite R|]. split; [now rewrite P|].
    split; [assumption|]. intros a _. now rewrite L.
  - intros (Hp & Hd & Hl). split; [now apply (persons_wf_same w)|].
    split; [|now apply (lists_wf_same w)].
    intros k1 k2 p q. rewrite P. apply Hd.
Qed.

Lemma evolves_bumped w : evolves w (bumped w).
Proof. apply evolves_same; simpl; auto. Qed.

Lemma evolves_rated r w :
  _ratings w !! _code r = None -> evolves w (rated r w).
Proof.
  intros H. split.
  - split; [now apply insert_subseteq|]. split; [reflexivity|].
    split; [simpl; lia | reflexivity].
  - intros (Hp & Hd & Hl). split; [|split].
    + apply (persons_wf_same w); simpl; auto.
    + exact Hd.
    + apply (lists_wf_same w); simpl; auto.
Qed.

Lemma evolves_registered name w :
  truthy (strip name) = true ->
  _persons w !! lower (strip name) = None ->
  evolves w (registered (new_person name w) w).
Proof.
  intros Ht Hk. split.
  - split; [reflexivity|]. split; [now apply insert_subseteq|].
    split; [simpl; lia | reflexivity].
  - intros (Hp & Hd & Hl). split; [now apply persons_wf_registered|].
    split; [|apply (lists_wf_same w); simpl; auto].
    intros k1 k2 p q. simpl. rewrite !lookup_insert.
    repeat case_decide; subst.
    + reflexivity.
    + intros [= <-] Hq. simpl. intros E.
      destruct (Hp _ _ Hq) as (_ & _ & _ & Ho). lia.
    + intros Hq [= <-]. simpl. intros E.
      destruct (Hp _ _ Hq) as (_ & _ & _ & Ho). lia.
    + apply Hd.
Qed.

Lemma evolves_new_list l w a w' :
  new_list l w = (Return a, w') -> evolves w w'.
Proof.
  intros E.
  destruct (new_list_extends l w)
    as (a0 & w0 & E0 & (R & N & L) & Hl & P & N' & _ & _).
  rewrite E in E0. injection E0 as <- <-.
  split.
  - split; [now rewrite R|]. split; [now rewrite P|]. auto.
  - intros (Hp & Hd & Hw). split; [now apply (persons_wf_same w)|].
    split; [|auto]. intros k1 k2 p q. rewrite P. apply Hd.
Qed.

Lemma snd_bind {A B} (c : M A) (k : A -> M B) w :
  snd (bind c k w)
  = match c w with
    | (Return a, w1) => snd (k a w1)
    | (Raise _, w1) => w1
    end.
Proof. unfold bind. now destruct (c w) as [[a|e] w1]. Qed.

Lemma evolves_get_rating c w : evolves w (snd (get_rating c w)).
Proof. rewrite get_rating_world. apply evolves_refl. Qed.

Lemma evolves_MovieRating_init c d w :
  evolves w (snd (MovieRating_init c d w)).
Proof.
  destruct (truthy c) eqn:Hc; [destruct (truthy d) eqn:Hd|].
  - destruct (_ratings w !! c) as [r|] eqn:Hr.
    + rewrite (MovieRating_init_duplicate _ _ _ r Hc Hd Hr).
      apply evolves_bumped.
    + rewrite (MovieRating_init_new _ _ _ Hc Hd Hr).
      now apply evolves_rated.
  - rewrite MovieRating_init_empty by auto. apply evolves_bumped.
  - rewrite MovieRating_init_empty by auto. apply evolves_bumped.
Qed.

Lemma evolves_Person_init name w : evolves w (snd (Person_init name w)).
Proof.
  destruct (truthy (strip name)) eqn:Ht.
  - destruct (_persons w !! lower (strip name)) as [q|] eqn:Hk.
    + rewrite (Person_init_duplicate _ _ q Ht Hk). apply evolves_bumped.
    + rewrite (Person_init_new _ _ Ht Hk). now apply evolves_registered.
  - rewrite (Person_init_empty _ _ Ht). apply evolves_bumped.
Qed.

Lemma evolves_get_person name w : evolves w (snd (get_person name w)).
Proof.
  destruct (get_person_cases name w)
    as [[Hf E]|[[Ht (q & Hq & E)]|(Ht & Hk & E)]]; rewrite E; simpl.
  - apply evolves_refl.
  - apply evolves_refl.
  - now apply evolves_registered.
Qed.

Lemma evolves_for_each names :
  forall w, evolves w (snd (for_each get_person names w)).
Proof.
  induction names as [|n names IH]; intros w; simpl.
  - apply evolves_refl.
  - rewrite snd_bind.
    pose proof (evolves_get_person n w) as H1.
    destruct (get_person n w) as [[p|e] w1]; simpl in H1; [|exact H1].
    rewrite snd_bind. specialize (IH w1).
    destruct (for_each get_person names w1) as [[ps|e] w2];
      simpl in IH |- *; now apply (evolves_trans w w1).
Qed.

Lemma evolves_directors_phase s w :
  evolves w (snd (directors_phase s w)).
Proof.
  unfold directors_phase. rewrite snd_bind.
  destruct (new_list [] w) as [[a|e] w1] eqn:E1.
  - pose proof (evolves_new_list _ _ _ _ E1) as H1.
    destruct (truthy s); [|exact H1].
    rewrite snd_bind.
    pose proof (evolves_for_each (director_names s) w1) as H2.
    destruct (for_each get_person (director_names s) w1) as [[ps|e] w2];
      simpl in H2; [|now apply (evolves_trans w w1)].
    destruct (new_list ps w2) as [[b|e] w3] eqn:E3.
    + simpl. apply (evolves_trans w w1); [assumption|].
      apply (evolves_trans w1 w2); [assumption|].
      now apply (evolves_new_list ps w2 b).
    + destruct (new_list_spec ps w2) as (w4 & E4 & _). congruence.
  - destruct (new_list_spec [] w) as (w4 & E4 & _). congruence.
Qed.

(** The world that [create_movie] leaves is the one it found, when a
    required value is missing or the rating code is not registered, and
    the one that the directors phase leaves otherwise. *)
Lemma create_movie_world movie_info w :
  (snd (create_movie movie_info w) = w
   /\ exists k msg,
        fst (create_movie movie_info w) = Raise (ValueError k msg))
  \/ snd (create_movie movie_info w)
     = snd (directors_phase
              (default EmptyString (movie_info !! "directors")) w).
Proof.
  destruct (required_values movie_info) as [[[[rt t] rc] g]|] eqn:Hreq.
  - destruct (_ratings w !! rc) as [r|] eqn:Hr.
    + right. rewrite (create_movie_body _ _ _ _ _ _ _ Hreq Hr).
      rewrite snd_bind.
      destruct (directors_phase _ w) as [[ds|e] w1]; [|reflexivity].
      now destruct (genre_map !! upper g).
    + left. rewrite (create_movie_bad_rating _ _ _ _ _ _ Hreq Hr). eauto.
  - left. rewrite (create_movie_missing _ _ Hreq). eauto.
Qed.

Lemma evolves_create_movie movie_info w :
  evolves w (snd (create_movie movie_info w)).
Proof.
  destruct (create_movie_world movie_info w) as [[-> _] | ->].
  - apply evolves_refl.
  - apply evolves_directors_phase.
Qed.

Lemma evolves_directors m w : evolves w (snd (directors m w)).
Proof.
  unfold directors. rewrite snd_bind. unfold read.
  destruct (new_list (list_at w (_directors m)) w) as [[a|e] w1] eqn:E.
  - exact (evolves_new_list _ _ _ _ E).
  - destruct (new_list_spec (list_at w (_directors m)) w) as (w4 & E4 & _).
    congruence.
Qed.

Lemma evolves_after_call c w : evolves w (after_call c w).
Proof.
  destruct c; simpl.
  - apply evolves_MovieRating_init.
  - apply evolves_get_rating.
  - apply evolves_Person_init.
  - apply evolves_get_person.
  - apply evolves_create_movie.
  - apply evolves_directors.
Qed.

Lemma evolves_after_calls cs : forall w, evolves w (after_calls cs w).
Proof.
  unfold after_calls.
  induction cs as [|c cs IH]; intros w; simpl; [apply evolves_refl|].
  apply (evolves_trans w (after_call c w)); [apply evolves_after_call|].
  apply IH.
Qed.

End Evolution.

(** The invariant holds in every world that the program reaches. *)
Lemma invariant_after_calls (cs : list call) :
  invariant (after_calls cs world0).
Proof.
  destruct (evolves_after_calls cs world0) as [_ Hi].
  exact (Hi invariant_world0).
Qed.

(** X5.  After any sequence of calls of [MovieRating], [get_rating],
    [Person], [get_person], [create_movie] and [directors] with
    arguments of ASCII characters, made after the import and whether
    they return or raise: the person registry is keyed by the
    lower-cased full names, none empty; persons registered under
    different keys are different objects; every list object lies below
    the allocation counter; and the six predefined ratings are still
    returned by [get_rating] for their codes. *)
Theorem X5_reachable_worlds (cs : list call) :
  Forall ascii_call cs ->
  invariant (after_calls cs world0)
  /\ Forall (fun r => get_rating (code r) (after_calls cs world0)
                     = (Return r, after_calls cs world0))
       standard_ratings.
Proof.
  intros _.
  destruct (evolves_after_calls cs world0) as [(Hr & _) _].
  split; [exact (invariant_after_calls cs)|].
  assert (H : forall r, _ratings world0 !! code r = Some r ->
                        get_rating (code r) (after_calls cs world0)
                        = (Return r, after_calls cs world0)).
  { intros r Hl. apply get_rating_registered.
    exact (lookup_weaken _ _ _ _ Hl Hr). }
  repeat constructor; apply H; vm_compute; reflexivity.
Qed.

Lemma X5_witness :
  let cs := [CallCreateMovie MOVIE_INFO; CallGetPerson " CARL reiner ";
             CallPerson "Carl Reiner"; CallGetRating "NC17"] in
  Forall ascii_call cs
  /\ invariant (after_calls cs world0)
  /\ len_persons (after_calls cs world0) = 1.
Proof.
  intros cs.
  assert (H : Forall ascii_call cs).
  { repeat constructor.
    apply (bool_decide_unpack _). vm_compute. exact I. }
  split; [exact H|].
  split; [exact (proj1 (X5_reachable_worlds cs H))|].
  vm_compute. reflexivity.
Defined.

Section Stability.
Import PyStr PyStrFacts.

Lemma get_rating_inv c w r w1 :
  get_rating c w = (Return r, w1) -> _ratings w !! c = Some r /\ w1 = w.
Proof.
  unfold get_rating. run_M.
  destruct (_ratings w !! c); [|discriminate]. now intros [= <- <-].
Qed.

End Stability.

(** X6.  An instance once returned stays: after [get_person(name)] has
    returned a person, and after [get_rating(code)] has returned a
    rating, every later call with the same argument returns that same
    instance, whatever calls were made in between. *)
Theorem X6_instances_are_stable (w w1 : world) (cs : list call) :
  (forall name p,
      get_person name w = (Return p, w1) ->
      get_person name (after_calls cs w1) = (Return p, after_calls cs w1))
  /\ (forall c r,
        get_rating c w = (Return r, w1) ->
        get_rating c (after_calls cs w1) = (Return r, after_calls cs w1)).
Proof.
  destruct (evolves_after_calls cs w1) as [(Hr & Hp & _) _].
  split.
  - intros name p H. apply get_person_registers in H as [Ht Hk].
    apply get_person_existing; [exact Ht|].
    exact (lookup_weaken _ _ _ _ Hk Hp).
  - intros c r H. apply get_rating_inv in H as [Hl ->].
    apply get_rating_registered. exact (lookup_weaken _ _ _ _ Hl Hr).
Qed.

Lemma X6_witness :
  let w1 := snd (get_person "Jane Doe" world0) in
  let cs := [CallCreateMovie MOVIE_INFO; CallPerson "Jane Doe";
             CallGetPerson "  JANE doe "] in
  get_person "Jane Doe" world0 = (Return (new_person "Jane Doe" world0), w1)
  /\ get_person "Jane Doe" (after_calls cs w1)
     = (Return (new_person "Jane Doe" world0), after_calls cs w1).
Proof.
  intros w1 cs.
  assert (H : get_person "Jane Doe" world0
              = (Return (new_person "Jane Doe" world0), w1))
    by (vm_compute; reflexivity).
  split; [exact H|].
  exact (proj1 (X6_instances_are_stable world0 w1 cs) _ _ H).
Defined.

(** X7.  In every world the program reaches, two registered persons are
    equal by [Person.__eq__] exactly when they are one object, and they
    are one object exactly when their addresses are the same. *)
Theorem X7_equal_persons_are_identical (cs : list call) (k1 k2 : string)
    (p q : Person) :
  _persons (after_calls cs world0) !! k1 = Some p ->
  _persons (after_calls cs world0) !! k2 = Some q ->
  (Person_eq p q = true <-> p = q)
  /\ (person_oid p = person_oid q <-> p = q).
Proof.
  intros Hp Hq.
  destruct (invariant_after_calls cs) as (Hwf & Hd & _).
  destruct (Hwf _ _ Hp) as (Np & _), (Hwf _ _ Hq) as (Nq & _).
  split; split.
  - unfold Person_eq. intros E%String.eqb_eq. congruence.
  - intros ->. apply String.eqb_refl.
  - intros E. pose proof (Hd _ _ _ _ Hp Hq E). congruence.
  - now intros ->.
Qed.

Lemma X7_witness :
  let cs := [CallGetPerson "Jane Doe"; CallGetPerson "Carl Reiner"] in
  let p := new_person "Jane Doe" world0 in
  _persons (after_calls cs world0) !! "jane doe" = Some p
  /\ (Person_eq p p = true <-> p = p).
Proof.
  intros cs p.
  assert (H : _persons (after_calls cs world0) !! "jane doe" = Some p)
    by (vm_compute; reflexivity).
  split; [exact H|].
  exact (proj1 (X7_equal_persons_are_identical cs _ _ p p H H)).
Defined.

(** X8.  When [Person(name)] returns, for a name of ASCII characters and
    in a world where every registered person is an object that has been
    allocated, the person is a new object: its full name is the trimmed
    name, it is registered under the lower-cased trimmed name, which was
    free, every person registered before is still registered under its
    key and is a different object, and the registry has one more
    entry. *)
Theorem X8_Person_creates_a_new_instance (name : string) (w : world)
    (p : Person) (w' : world) :
  PyStr.isascii name = true ->
  persons_allocated w ->
  Person_init name w = (Return p, w') ->
  full_name p = PyStr.strip name
  /\ _persons w !! PyStr.lower (PyStr.strip name) = None
  /\ _persons w' !! PyStr.lower (PyStr.strip name) = Some p
  /\ (forall k q, _persons w !! k = Some q ->
                  _persons w' !! k = Some q /\ person_oid q <> person_oid p)
  /\ len_persons w' = S (len_persons w).
Proof.
  intros _ Hwf H.
  pose proof (len_persons_Person_init _ _ _ _ H) as Hlen.
  destruct (PyStr.truthy (PyStr.strip name)) eqn:Ht.
  - destruct (_persons w !! PyStr.lower (PyStr.strip name)) as [q|] eqn:Hk.
    + rewrite (Person_init_duplicate _ _ q Ht Hk) in H. discriminate.
    + rewrite (Person_init_new _ _ Ht Hk) in H. injection H as <- <-.
      split; [reflexivity|]. split; [reflexivity|].
      split; [simpl; apply lookup_insert_eq|]. split; [|exact Hlen].
      intros k q Hq. pose proof (Hwf _ _ Hq) as Ho.
      split; [|simpl; lia].
      simpl. rewrite lookup_insert_ne; [exact Hq | congruence].
  - rewrite (Person_init_empty _ _ Ht) in H. discriminate.
Qed.

Lemma X8_witness :
  let w := snd (get_person "Carl Reiner" world0) in
  (PyStr.isascii " Jane Doe " = true
   /\ persons_allocated w
   /\ Person_init " Jane Doe " w
      = (Return (new_person " Jane Doe " w),
         registered (new_person " Jane Doe " w) w))
  /\ full_name (new_person " Jane Doe " w) = "Jane Doe".
Proof.
  intros w.
  assert (Ha : PyStr.isascii " Jane Doe " = true) by reflexivity.
  assert (Hwf : persons_allocated w).
  { intros k p Hk.
    exact (proj2 (proj2 (proj2
             (persons_wf_get_person _ _ persons_wf_world0 k p Hk)))). }
  assert (H : Person_init " Jane Doe " w
              = (Return (new_person " Jane Doe " w),
                 registered (new_person " Jane Doe " w) w))
    by (vm_compute; reflexivity).
  split; [split; [|split]; assumption|].
  exact (proj1 (X8_Person_creates_a_new_instance _ _ _ _ Ha Hwf H)).
Defined.

(** ** The directors of a record *)

Section DirectorsOfARecord.
Import PyStr PyStrFacts.

(** The names that [create_movie] hands to [get_person] are trimmed and
    not empty. *)
Lemma director_names_trimmed s :
  Forall (fun n => truthy n = true /\ strip n = n) (director_names s).
Proof.
  unfold director_names.
  induction (split "," s) as [|x l IH]; simpl; [constructor|].
  destruct (truthy (strip x)) eqn:Hx; simpl; [|assumption].
  constructor; [|assumption]. split; [assumption | apply strip_idem].
Qed.

Lemma director_names_falsy s : truthy s = false -> director_names s = [].
Proof. intros ->%truthy_false. reflexivity. Qed.

Lemma get_person_trimmed n w :
  truthy n = true -> strip n = n ->
  exists p w1,
    get_person n w = (Return p, w1)
    /\ _persons w1 !! lower n = Some p
    /\ dom (_persons w1) = dom (_persons w) ∪ {[lower n]}.
Proof.
  intros Ht Hs.
  destruct (get_person_cases n w)
    as [[Hf _]|[[_ (q & Hq & E)]|(_ & Hk & E)]]; rewrite Hs in *.
  - congruence.
  - exists q, w. split; [exact E|]. split; [exact Hq|].
    apply (elem_of_dom_2 (D := gset string)) in Hq. set_solver.
  - exists (new_person n w), (registered (new_person n w) w).
    split; [exact E|]. unfold new_person. rewrite Hs. simpl.
    split; [apply lookup_insert_eq|]. rewrite dom_insert_L. set_solver.
Qed.

Lemma for_each_get_person_keys names :
  Forall (fun n => truthy n = true /\ strip n = n) names ->
  forall w, exists ps w',
    for_each get_person names w = (Return ps, w')
    /\ Forall2 (fun n p => _persons w' !! lower n = Some p) names ps
    /\ dom (_persons w')
       = dom (_persons w) ∪ list_to_set (lower <$> names).
Proof.
  induction 1 as [|n names [Ht Hs] _ IH]; intros w; simpl.
  - exists [], w. split; [reflexivity|]. split; [constructor | set_solver].
  - destruct (get_person_trimmed n w Ht Hs) as (p & w1 & E1 & K1 & D1).
    destruct (IH w1) as (ps & w2 & E2 & F2 & D2).
    exists (p :: ps), w2.
    split; [|split].
    + unfold bind at 1. rewrite E1. unfold bind at 1. now rewrite E2.
    + constructor; [|exact F2].
      pose proof (evolves_for_each names w1) as [(_ & Hsub & _) _].
      rewrite E2 in Hsub. simpl in Hsub.
      exact (lookup_weaken _ _ _ _ K1 Hsub).
    + rewrite D2, D1. set_solver.
Qed.

(** What the directors phase leaves: the list it returns holds, in the
    order of the field, the persons registered under the lower-cased
    names, and the registry has gained exactly those keys. *)
Lemma directors_phase_persons s w :
  exists ds w',
    directors_phase s w = (Return ds, w')
    /\ Forall2 (fun n p => _persons w' !! lower n = Some p)
         (director_names s) (list_at w' ds)
    /\ dom (_persons w')
       = dom (_persons w) ∪ list_to_set (lower <$> director_names s)
    /\ _ratings w' = _ratings w.
Proof.
  unfold directors_phase.
  destruct (new_list_extends [] w)
    as (a & w1 & E1 & (R1 & _) & _ & P1 & _ & _ & L1).
  rewrite (bind_Return _ _ _ _ _ E1).
  destruct (truthy s) eqn:Hs.
  - destruct (for_each_get_person_keys _ (director_names_trimmed s) w1)
      as (ps & w2 & E2 & F2 & D2).
    rewrite (bind_Return _ _ _ _ _ E2).
    destruct (new_list_extends ps w2)
      as (b & w3 & E3 & (R3 & _) & _ & P3 & _ & _ & L3).
    exists b, w3. split; [exact E3|].
    unfold list_at. rewrite L3, P3, D2, P1. simpl.
    split; [exact F2|]. split; [reflexivity|].
    pose proof (evolves_for_each (director_names s) w1) as [_ Hi].
    destruct (for_each_get_person _ (director_names_truthy s) w1)
      as (ps' & w2' & E2' & (R2 & _) & _).
    rewrite E2 in E2'. injection E2' as <- <-. congruence.
  - exists a, w1. split; [reflexivity|].
    rewrite (director_names_falsy s Hs). unfold list_at. rewrite L1, P1.
    simpl. split; [constructor|]. split; [set_solver | exact R1].
Qed.

End DirectorsOfARecord.

(** X9.  When [create_movie] returns a movie for a record of ASCII
    characters, its list of directors holds one person for each
    comma-separated part of the directors field that is not blank, in
    the order of the field: the person
    registered under the lower-cased trimmed part (so a name repeated in
    another letter case gives the same person twice).  The person
    registry has gained exactly those keys, and where the registry was
    well formed each director's normalized name is that key. *)
Theorem X9_directors_of_a_record (movie_info : gmap string string)
    (w : world) (m : Movie) (w' : world) :
  ascii_record movie_info ->
  create_movie movie_info w = (Return m, w') ->
  let names := director_names (default EmptyString (movie_info !! "directors")) in
  Forall2 (fun n p => _persons w' !! PyStr.lower n = Some p)
    names (list_at w' (_directors m))
  /\ dom (_persons w')
     = dom (_persons w) ∪ list_to_set (PyStr.lower <$> names)
  /\ (persons_wf w ->
      Forall2 (fun n p => _normalized_name p = PyStr.lower n)
        names (list_at w' (_directors m))).
Proof.
  intros _ H names.
  destruct (create_movie_inv _ _ _ _ H)
    as (rt & t & rc & g & r & Hreq & Hr & Hc).
  rewrite (create_movie_body _ _ _ _ _ _ _ Hreq Hr) in H.
  destruct (directors_phase_persons
              (default EmptyString (movie_info !! "directors")) w)
    as (ds & w1 & E & F & D & _).
  rewrite (bind_Return _ _ _ _ _ E), Hc in H. injection H as <- <-.
  split; [exact F|]. split; [exact D|].
  intros Hwf.
  assert (Hwf1 : persons_wf w1).
  { pose proof (directors_phase_spec
                  (default EmptyString (movie_info !! "directors")) w)
      as (ds' & w1' & l & E' & _ & _ & Hp & _).
    rewrite E in E'. injection E' as <- <-. auto. }
  simpl. eapply Forall2_impl; [exact F|].
  intros n p Hk. now destruct (Hwf1 _ _ Hk) as (-> & _).
Qed.

Lemma X9_witness :
  let info := <["directors" := "Carl Reiner, , carl REINER,Bob"]> MOVIE_INFO in
  ascii_record info
  /\ exists m w',
    create_movie info world0 = (Return m, w')
    /\ director_names (default EmptyString (info !! "directors"))
       = ["Carl Reiner"; "carl REINER"; "Bob"]
    /\ Forall2 (fun n p => _persons w' !! PyStr.lower n = Some p)
         (director_names (default EmptyString (info !! "directors")))
         (list_at w' (_directors m)).
Proof.
  intros info.
  assert (Ha : ascii_record info)
    by (apply (bool_decide_unpack _); vm_compute; exact I).
  split; [exact Ha|].
  assert (H : exists m w', create_movie info world0 = (Return m, w'))
    by (do 2 eexists; vm_compute; reflexivity).
  destruct H as (m & w' & H). exists m, w'.
  split; [exact H|]. split; [vm_compute; reflexivity|].
  exact (proj1 (X9_directors_of_a_record info world0 m w' Ha H)).
Defined.

(** X10.  When [create_movie] raises for a record of ASCII characters,
    it raises one of three errors.  For missing required fields and for an invalid rating code the
    world is left as it was found.  For an unknown genre the directors
    of the record have been registered all the same: the person
    registry has gained the keys of the directors field, and the
    ratings are unchanged. *)
Theorem X10_what_a_rejected_record_leaves (movie_info : gmap string string)
    (w : world) (e : exn) (w' : world) :
  ascii_record movie_info ->
  create_movie movie_info w = (Raise e, w') ->
  (required_values movie_info = None
   /\ e = ValueError InvalidArgument "Missing required fields" /\ w' = w)
  \/ (exists rt t rc g,
        required_values movie_info = Some (rt, t, rc, g)
        /\ _ratings w !! rc = None
        /\ e = ValueError InvalidArgument ("Invalid rating code: " ++ rc)
        /\ w' = w)
  \/ (exists rt t rc g,
        required_values movie_info = Some (rt, t, rc, g)
        /\ genre_map !! PyStr.upper g = None
        /\ e = ValueError InvalidArgument ("Unknown genre: " ++ g)
        /\ _ratings w' = _ratings w
        /\ dom (_persons w')
           = dom (_persons w)
             ∪ list_to_set
                 (PyStr.lower
                    <$> director_names
                          (default EmptyString (movie_info !! "directors")))).
Proof.
  intros _ H.
  destruct (required_values movie_info) as [[[[rt t] rc] g]|] eqn:Hreq.
  - destruct (_ratings w !! rc) as [r|] eqn:Hr.
    + right. right. exists rt, t, rc, g.
      rewrite (create_movie_body _ _ _ _ _ _ _ Hreq Hr) in H.
      destruct (directors_phase_persons
                  (default EmptyString (movie_info !! "directors")) w)
        as (ds & w1 & E & _ & D & Rt).
      rewrite (bind_Return _ _ _ _ _ E) in H.
      destruct (genre_map !! PyStr.upper g) as [c|]; [discriminate|].
      injection H as <- <-. auto.
    + right. left. exists rt, t, rc, g.
      rewrite (create_movie_bad_rating _ _ _ _ _ _ Hreq Hr) in H.
      injection H as <- <-. auto.
  - left. rewrite (create_movie_missing _ _ Hreq) in H.
    injection H as <- <-. auto.
Qed.

Lemma X10_witness :
  let info := <["genre" := "MUSICAL"]> MOVIE_INFO in
  ascii_record info
  /\ exists e w',
    create_movie info world0 = (Raise e, w')
    /\ e = ValueError InvalidArgument "Unknown genre: MUSICAL"
    /\ _persons world0 !! "carl reiner" = None
    /\ is_Some (_persons w' !! "carl reiner").
Proof.
  intros info.
  assert (Ha : ascii_record info)
    by (apply (bool_decide_unpack _); vm_compute; exact I).
  split; [exact Ha|].
  assert (H : exists e w', create_movie info world0 = (Raise e, w'))
    by (do 2 eexists; vm_compute; reflexivity).
  destruct H as (e & w' & H). exists e, w'. split; [exact H|].
  destruct (X10_what_a_rejected_record_leaves info world0 e w' Ha H)
    as [(Hreq & _) | [(rt & t & rc & g & Hreq & Hr & _)
                     | (rt & t & rc & g & Hreq & _ & He & _ & D)]].
  - vm_compute in Hreq. discriminate Hreq.
  - vm_compute in Hreq. injection Hreq as <- <- <- <-.
    vm_compute in Hr. discriminate Hr.
  - vm_compute in Hreq. injection Hreq as <- <- <- <-.
    split; [exact He|]. split; [vm_compute; reflexivity|].
    apply (elem_of_dom (D := gset string)). rewrite D.
    apply elem_of_union_r. clear Ha H D. vm_compute. set_solver.
Defined.

(** ** The constructor of the movies *)

(** X11.  [Movie.__init__] keeps the list object it is given, without
    copying it: after an in-place change of that list by the caller,
    the [directors] accessor of the movie returns the changed elements.
    Given no list, it makes a new empty list of its own, which is none
    of the list objects that exist. *)
Theorem X11_constructor_keeps_the_callers_list (cls : genre_class)
    (rt t : string) (r : MovieRating) (a : nat)
    (rd sd : option datetime) (len : option Z) (co : option string)
    (sc cn : option Z) (w : world) (f : list Person -> list Person) :
  PyStr.truthy rt = true -> PyStr.truthy t = true -> a < next_oid w ->
  (exists m w2 b w3,
      Movie_init cls rt t (Some r) (Some a) rd sd len co sc cn w
      = (Return m, w)
      /\ _directors m = a
      /\ mutate a f w = (Return tt, w2)
      /\ directors m w2 = (Return b, w3)
      /\ list_at w3 b = f (list_at w a))
  /\ (exists m w',
        Movie_init cls rt t (Some r) None rd sd len co sc cn w
        = (Return m, w')
        /\ _directors m = next_oid w
        /\ list_at w' (_directors m) = []
        /\ forall b, b < next_oid w -> lists w' !! b = lists w !! b).
Proof.
  intros Hrt Ht Ha. split.
  - set (m := {| class_ := cls; _rt_link := rt; _title := t; _rating := r;
                 _directors := a; _release_date := rd;
                 _streaming_date := sd; _length := len; _company := co;
                 _score := sc; _count := cn |}).
    remember (snd (mutate a f w)) as w2 eqn:Hw2.
    pose proof (mutate_spec a f w) as E2.
    rewrite mutate_spec in Hw2. simpl in Hw2.
    assert (L2 : list_at w2 a = f (list_at w a)).
    { apply (list_at_insert_eq _ _ _ (lists w)). now rewrite Hw2. }
    exists m, w2, (next_oid w2), (snd (directors m w2)).
    split; [unfold Movie_init; rewrite Hrt, Ht; reflexivity|].
    split; [reflexivity|]. split; [now rewrite Hw2 at 1|].
    split; [now rewrite directors_spec|].
    rewrite <- L2. rewrite directors_spec. simpl.
    now apply (list_at_insert_eq _ _ _ (lists w2)).
  - eexists _, _.
    split; [unfold Movie_init; rewrite Hrt, Ht; reflexivity|].
    simpl. split; [reflexivity|]. split.
    + unfold list_at. simpl. now rewrite lookup_insert_eq.
    + intros b Hb. apply lookup_insert_ne. lia.
Qed.

Lemma X11_witness :
  let w := snd (create_movie MOVIE_INFO world0) in
  (PyStr.truthy "m/1" = true /\ PyStr.truthy "Title" = true
   /\ 8 < next_oid w)
  /\ exists m w2 b w3,
      Movie_init Drama "m/1" "Title" (Some PG) (Some 8) None None None None
        None None w = (Return m, w)
      /\ mutate 8 (fun _ => []) w = (Return tt, w2)
      /\ directors m w2 = (Return b, w3)
      /\ list_at w3 b = [].
Proof.
  intros w.
  assert (H : 8 < next_oid w) by (vm_compute; lia).
  split; [repeat split; exact H|].
  destruct (proj1 (X11_constructor_keeps_the_callers_list Drama "m/1" "Title"
                     PG 8 None None None None None None w (fun _ => [])
                     eq_refl eq_refl H))
    as (m & w2 & b & w3 & E1 & _ & E2 & E3 & L).
  exists m, w2, b, w3. repeat split; assumption.
Defined.

(** ** The predicates of the movies *)

(** X12.  A movie that is a classic in some year is a classic in every
    later year; a classic has a relevant score above 80, so a slapstick
    movie is never a classic; and a cosy movie is never short. *)
Theorem X12_predicates_agree (m : Movie) (y y' : Z) :
  (is_classic y m = true -> (y <= y')%Z -> is_classic y' m = true)
  /\ (is_classic y m = true ->
      relevant_score m = true /\ is_slapstick m = false
      /\ exists s d, score m = Some s /\ (80 < s)%Z
                     /\ release_date m = Some d /\ (year d + 20 <= y)%Z)
  /\ (is_slapstick m = true -> relevant_score m = true)
  /\ (is_cosy m = true -> is_short m = false).
Proof.
  split; [|split; [|split]].
  - unfold is_classic. destruct (_score m) as [s|]; [|discriminate].
    destruct (negb (relevant_score m) || (s <=? 80)%Z); [discriminate|].
    destruct (_release_date m) as [d|]; [|discriminate].
    intros H1 H2. apply Z.leb_le in H1. apply Z.leb_le. lia.
  - unfold is_classic, is_slapstick, score, release_date.
    destruct (_score m) as [s|]; [|discriminate].
    destruct (relevant_score m); [|discriminate]. simpl.
    destruct (s <=? 80)%Z eqn:E; [discriminate|].
    destruct (_release_date m) as [d|]; [|discriminate].
    intros H. apply Z.leb_le in H. apply Z.leb_gt in E.
    split; [reflexivity|]. split; [apply Z.ltb_ge; lia|].
    exists s, d. repeat split; lia.
  - unfold is_slapstick. now intros [H _]%andb_true_iff.
  - unfold is_cosy, is_short. destruct (_length m) as [l|]; [|reflexivity].
    intros [H1 H2]%andb_true_iff. apply Z.leb_le in H1. apply Z.ltb_ge. lia.
Qed.

Lemma X12_witness :
  let m := built_movie (<["audience_rating" := "91"]> MOVIE_INFO) Comedy
             "m/1000640-all_of_me" "All of Me" PG 8 in
  is_classic 2004 m = true /\ (2004 <= 2025)%Z /\ is_classic 2025 m = true
  /\ is_classic 2003 m = false.
Proof.
  intros m.
  assert (H : is_classic 2004 m = true) by (vm_compute; reflexivity).
  assert (L : (2004 <= 2025)%Z) by lia.
  split; [exact H|]. split; [exact L|].
  split; [exact (proj1 (X12_predicates_agree m 2004 2025) H L)|].
  vm_compute. reflexivity.
Defined.

(** ** Loading the catalogue *)

Section LoadMovies.
Import PyStr PyStrFacts.

Lemma create_movie_ratings row w :
  _ratings (snd (create_movie row w)) = _ratings w.
Proof.
  destruct (create_movie_world row w) as [[-> _] | ->]; [reflexivity|].
  destruct (directors_phase_spec (default EmptyString (row !! "directors")) w)
    as (ds & w' & l & E & (R & _) & _).
  now rewrite E.
Qed.

Lemma acceptable_ratings w w' row :
  _ratings w' = _ratings w -> acceptable w' row = acceptable w row.
Proof. unfold acceptable. now intros ->. Qed.

Lemma loaded_from_ratings w w' row m :
  _ratings w' = _ratings w -> loaded_from w' row m -> loaded_from w row m.
Proof. unfold loaded_from. now intros ->. Qed.

Lemma create_movie_acceptable row w :
  acceptable w row = true ->
  exists m, fst (create_movie row w) = Return m /\ loaded_from w row m.
Proof.
  unfold acceptable, contains.
  destruct (required_values row) as [[[[rt t] rc] g]|] eqn:Hreq;
    [|discriminate].
  destruct (_ratings w !! rc) as [r|] eqn:Hr; [|discriminate].
  destruct (genre_map !! upper g) as [c|] eqn:Hg; [|discriminate].
  intros _.
  destruct (create_movie_accepts _ w _ _ _ _ _ _ Hreq Hr Hg)
    as (ds & w1 & l & E & _).
  exists (built_movie row c rt t r ds). rewrite E. split; [reflexivity|].
  exists rt, t, rc, g, r. auto.
Qed.

Lemma create_movie_rejected row w :
  acceptable w row = false ->
  exists msg,
    fst (create_movie row w) = Raise (ValueError InvalidArgument msg).
Proof.
  unfold acceptable, contains.
  destruct (required_values row) as [[[[rt t] rc] g]|] eqn:Hreq.
  - destruct (_ratings w !! rc) as [r|] eqn:Hr.
    + destruct (genre_map !! upper g) as [c|] eqn:Hg; [discriminate|].
      intros _.
      destruct (create_movie_unknown_genre _ w _ _ _ _ _ Hreq Hr Hg)
        as (w1 & E).
      rewrite E. eauto.
    + intros _. rewrite (create_movie_bad_rating _ _ _ _ _ _ Hreq Hr). eauto.
  - intros _. rewrite (create_movie_missing _ _ Hreq). eauto.
Qed.

Lemma movie_in_grows w w' m : grows w w' -> movie_in w m -> movie_in w' m.
Proof. intros (_ & _ & N & _). unfold movie_in. lia. Qed.

Lemma load_movies_loop_spec rows : forall movies errors w,
  exists loaded w',
    load_movies_loop rows movies errors w
    = (Return (movies ++ loaded,
               errors + Datatypes.length (List.filter (rejected w) rows)),
       w')
    /\ Forall2 (loaded_from w) (List.filter (acceptable w) rows) loaded
    /\ evolves w w'
    /\ _ratings w' = _ratings w
    /\ (invariant w -> Forall (movie_in w') loaded).
Proof.
  induction rows as [|row rows IH]; intros movies errors w.
  - exists [], w. simpl. unfold ret. rewrite app_nil_r, Nat.add_0_r.
    split; [reflexivity|]. split; [constructor|].
    split; [apply evolves_refl|]. split; [reflexivity | constructor].
  - pose proof (create_movie_ratings row w) as HR.
    pose proof (evolves_create_movie row w) as HE.
    cbn [load_movies_loop List.filter]. unfold rejected at 1.
    destruct (acceptable w row) eqn:Ha.
    + destruct (create_movie_acceptable _ _ Ha) as (m & Em & Lm).
      destruct (create_movie row w) as [o w1] eqn:Ec.
      simpl in Em, HR, HE. subst o.
      destruct (IH (movies ++ [m]) errors w1)
        as (loaded & w' & E & F & V & R & I).
      exists (m :: loaded), w'. rewrite E.
      rewrite <- app_assoc. simpl.
      rewrite (List.filter_ext (rejected w1) (rejected w)),
        (List.filter_ext (acceptable w1) (acceptable w)) in *
        by (intros a; unfold rejected; now rewrite (acceptable_ratings w w1)).
      split; [reflexivity|].
      split; [constructor; [assumption|]|].
      * eapply Forall2_impl; [exact F|].
        intros a b. now apply loaded_from_ratings.
      * split; [now apply (evolves_trans w w1)|].
        split; [congruence|]. intros Hw.
        constructor; [|exact (I (proj2 HE Hw))].
        apply (movie_in_grows w1 w' m (proj1 V)).
        destruct Hw as (_ & _ & Hl).
        exact (proj1 (create_movie_movie_in _ _ _ _ Hl Ec)).
    + destruct (create_movie_rejected _ _ Ha) as (msg & Em).
      destruct (create_movie row w) as [o w1]. simpl in Em, HR, HE.
      subst o.
      destruct (IH movies (S errors) w1)
        as (loaded & w' & E & F & V & R & I).
      exists loaded, w'. rewrite E. simpl.
      rewrite (List.filter_ext (rejected w1) (rejected w)),
        (List.filter_ext (acceptable w1) (acceptable w)) in *
        by (intros a; unfold rejected; now rewrite (acceptable_ratings w w1)).
      split; [now rewrite Nat.add_succ_r|].
      split.
      * eapply Forall2_impl; [exact F|].
        intros a b. now apply loaded_from_ratings.
      * split; [now apply (evolves_trans w w1)|].
        split; [congruence|]. intros Hw. exact (I (proj2 HE Hw)).
Qed.

Lemma rejected_length w rows :
  Datatypes.length (List.filter (acceptable w) rows)
  + Datatypes.length (List.filter (rejected w) rows)
  = Datatypes.length rows.
Proof.
  unfold rejected. induction rows as [|a l IH]; [reflexivity|].
  simpl. destruct (acceptable w a); simpl; lia.
Qed.

End LoadMovies.

(** X13.  [load_movies], for rows of ASCII characters.  Where there is
    no file it raises [FileNotFoundError], and where the file cannot be
    opened it returns [None]; the world is as it was.  Otherwise no row
    that the reader yields makes the loop raise or stop.  When the
    reader ends, [load_movies] returns, in the order of the rows, one
    movie for each row that has its four required values, a registered
    rating code and a genre of the table, each built from the fields of
    its row; every other row is counted as an error and skipped, so that
    the movies and the errors add up to the rows.  When the reader
    raises after these rows, [load_movies] returns [None], and leaves
    the world that the rows read have made.  In both cases the ratings
    are left as they were, the world has only grown, and in a world of
    the program the movies built are movies of the world that is
    left. *)
Theorem X13_load_movies_skips_rejected_rows
    (rows : list (gmap string string)) (w : world) :
  Forall ascii_record rows ->
  load_movies NoFile w = (FileNotFoundError, w)
  /\ load_movies CannotOpen w = (ReturnNone, w)
  /\ exists loaded w',
      load_movies (Rows rows true) w
      = (ReturnMovies loaded
           (Datatypes.length (List.filter (rejected w) rows)), w')
      /\ load_movies (Rows rows false) w = (ReturnNone, w')
      /\ Forall2 (loaded_from w) (List.filter (acceptable w) rows) loaded
      /\ Datatypes.length loaded
         + Datatypes.length (List.filter (rejected w) rows)
         = Datatypes.length rows
      /\ evolves w w'
      /\ _ratings w' = _ratings w
      /\ (invariant w -> Forall (movie_in w') loaded).
Proof.
  intros _. split; [reflexivity|]. split; [reflexivity|].
  destruct (load_movies_loop_spec rows [] 0 w)
    as (loaded & w' & E & F & V & R & I).
  exists loaded, w'. unfold load_movies. rewrite E. simpl.
  split; [reflexivity|]. split; [reflexivity|]. split; [exact F|].
  split; [|split; [|split]; assumption].
  rewrite <- (Forall2_length _ _ _ F). apply rejected_length.
Qed.

Lemma X13_witness :
  Forall ascii_record example_rows
  /\ exists loaded w',
      load_movies (Rows example_rows true) world0
      = (ReturnMovies loaded 0, w')
      /\ load_movies (Rows example_rows false) world0 = (ReturnNone, w')
      /\ Datatypes.length loaded = 5
      /\ Forall (movie_in w') loaded.
Proof.
  assert (H : Forall ascii_record example_rows)
    by (apply (bool_decide_unpack _); vm_compute; exact I).
  split; [exact H|].
  assert (Z : Datatypes.length (List.filter (rejected world0) example_rows)
              = 0) by (vm_compute; reflexivity).
  destruct (X13_load_movies_skips_rejected_rows example_rows world0 H)
    as (_ & _ & loaded & w' & E & E' & _ & L & _ & _ & I).
  rewrite Z in E, L. exists loaded, w'.
  split; [exact E|]. split; [exact E'|].
  split; [rewrite Nat.add_0_r in L; exact L|].
  exact (I invariant_world0).
Defined.

(** ** The counters and the sorted lists *)

Section Counter.

Lemma counter_get_incr k k' c :
  counter_get (counter_incr k c) k'
  = if String.eqb k k' then S (counter_get c k') else counter_get c k'.
Proof.
  unfold counter_get. induction c as [|[a n] r IH]; simpl.
  - destruct (String.eqb k k'); reflexivity.
  - destruct (String.eqb a k) eqn:E1; simpl.
    + apply String.eqb_eq in E1. subst a.
      destruct (String.eqb k k'); reflexivity.
    + destruct (String.eqb a k') eqn:E2; simpl; [|exact IH].
      apply String.eqb_eq in E2. subst a. now rewrite String.eqb_sym, E1.
Qed.

Lemma counter_keys_incr k c :
  List.map fst (counter_incr k c)
  = if existsb (String.eqb k) (List.map fst c) then List.map fst c
    else List.map fst c ++ [k].
Proof.
  induction c as [|[a n] r IH]; simpl; [reflexivity|].
  rewrite (String.eqb_sym k a).
  destruct (String.eqb a k); simpl; [reflexivity|].
  rewrite IH. now destruct (existsb _ _).
Qed.

Lemma counter_incr_NoDup k c :
  List.NoDup (List.map fst c) -> List.NoDup (List.map fst (counter_incr k c)).
Proof.
  intros H. rewrite counter_keys_incr.
  destruct (existsb _ _) eqn:E; [exact H|].
  apply List.NoDup_app; [exact H | repeat constructor; intros [] |].
  intros x Hx [->|[]].
  assert (X : existsb (String.eqb x) (List.map fst c) = true).
  { apply existsb_exists. exists x. split; [exact Hx|].
    apply String.eqb_refl. }
  congruence.
Qed.

Lemma counter_incr_positive k c :
  Forall (fun kv => 0 < snd kv) c ->
  Forall (fun kv => 0 < snd kv) (counter_incr k c).
Proof.
  induction c as [|[a n] r IH]; intros H; simpl.
  - repeat constructor.
  - inversion H; subst. destruct (String.eqb a k).
    + constructor; [simpl; lia | assumption].
    + constructor; [assumption | now apply IH].
Qed.

Lemma counter_get_In c k n :
  List.NoDup (List.map fst c) -> In (k, n) c -> counter_get c k = n.
Proof.
  unfold counter_get. induction c as [|[a x] r IH]; intros Hd [].
  - injection H as -> ->. simpl. now rewrite String.eqb_refl.
  - simpl in Hd. apply List.NoDup_cons_iff in Hd. destruct Hd as [Ha Hd].
    simpl. destruct (String.eqb a k) eqn:E.
    + apply String.eqb_eq in E. subst a. exfalso. apply Ha.
      change k with (fst (k, n)). now apply List.in_map.
    + now apply IH.
Qed.

Lemma counter_get_positive c k :
  0 < counter_get c k -> In (k, counter_get c k) c.
Proof.
  unfold counter_get. induction c as [|[a x] r IH]; simpl; [lia|].
  destruct (String.eqb a k) eqn:E; simpl.
  - apply String.eqb_eq in E. subst a. now left.
  - intros H. right. now apply IH.
Qed.

Lemma counter_of_spec keys : forall c,
  List.NoDup (List.map fst c) ->
  Forall (fun kv => 0 < snd kv) c ->
  List.NoDup (List.map fst (counter_of keys c))
  /\ Forall (fun kv => 0 < snd kv) (counter_of keys c)
  /\ (forall k, counter_get (counter_of keys c) k
                = counter_get c k + occurrences k keys)
  /\ (forall k, In k (List.map fst (counter_of keys c)) ->
                In k (List.map fst c) \/ In k keys).
Proof.
  unfold counter_of, occurrences.
  induction keys as [|x keys IH]; intros c Hd Hp; simpl.
  - split; [exact Hd|]. split; [exact Hp|]. split; [intros; lia | auto].
  - destruct (IH _ (counter_incr_NoDup x c Hd) (counter_incr_positive x c Hp))
      as (D & P & G & K).
    split; [exact D|]. split; [exact P|]. split.
    + intros k. rewrite G, counter_get_incr, (String.eqb_sym k x).
      destruct (String.eqb x k); simpl; lia.
    + intros k Hk. destruct (K k Hk) as [X|X]; [|auto].
      rewrite counter_keys_incr in X.
      destruct (existsb _ _); [auto|].
      apply List.in_app_iff in X. destruct X as [X|[<-|[]]]; auto.
Qed.

Lemma counter_of_map {A} (f : A -> string) (l : list A) : forall c,
  foldl (fun c a => counter_incr (f a) c) c l = counter_of (List.map f l) c.
Proof. induction l as [|a l IH]; intros c; [reflexivity | apply IH]. Qed.

Lemma counter_of_app l1 l2 c :
  counter_of (l1 ++ l2) c = counter_of l2 (counter_of l1 c).
Proof. unfold counter_of. apply foldl_app. Qed.

End Counter.

Section SortedDesc.

Context {A : Type} (key : A -> nat).

Lemma insert_desc_perm x l : Permutation (x :: l) (insert_desc key x l).
Proof.
  induction l as [|y r IH]; simpl; [reflexivity|].
  destruct (Nat.ltb (key y) (key x)); [reflexivity|].
  rewrite perm_swap. now constructor.
Qed.

Lemma insert_desc_sorted x l :
  Sorted.StronglySorted (desc key) l ->
  Sorted.StronglySorted (desc key) (insert_desc key x l).
Proof.
  induction l as [|y r IH]; intros H; simpl.
  - repeat constructor.
  - inversion H as [|? ? Hr Hy]; subst.
    destruct (Nat.ltb (key y) (key x)) eqn:E.
    + apply Nat.ltb_lt in E. constructor; [exact H|].
      constructor; [unfold desc; lia|].
      eapply List.Forall_impl; [|exact Hy]. unfold desc. intros; lia.
    + apply Nat.ltb_ge in E. constructor; [now apply IH|].
      rewrite <- (insert_desc_perm x r). constructor; assumption.
Qed.

Lemma sorted_desc_from xs : forall acc,
  Sorted.StronglySorted (desc key) acc ->
  Permutation (acc ++ xs) (foldl (fun acc x => insert_desc key x acc) acc xs)
  /\ Sorted.StronglySorted (desc key)
       (foldl (fun acc x => insert_desc key x acc) acc xs).
Proof.
  induction xs as [|x xs IH]; intros acc H; simpl.
  - now rewrite app_nil_r.
  - destruct (IH (insert_desc key x acc) (insert_desc_sorted x acc H))
      as [P S].
    split; [|exact S]. rewrite <- P, <- insert_desc_perm.
    simpl. symmetry. apply Permutation_middle.
Qed.

Lemma sorted_desc_spec xs :
  Permutation xs (sorted_desc key xs)
  /\ Sorted.StronglySorted (desc key) (sorted_desc key xs).
Proof. apply (sorted_desc_from xs []). constructor. Qed.

End SortedDesc.

Section SortedAsc.







End SortedAsc.

(** ** The movies of each genre *)

Section MoviesPerGenre.

Lemma class_name_inj c c' : class_name c = class_name c' -> c = c'.
Proof. destruct c, c'; simpl; intros H; try reflexivity; discriminate H. Qed.

Lemma occurrences_class_name g movies :
  occurrences (class_name g)
    (List.map (fun m => class_name (class_ m)) movies)
  = Datatypes.length (of_genre g movies).
Proof.
  unfold occurrences, of_genre. induction movies as [|m ms IH]; [reflexivity|].
  simpl. destruct (decide (class_ m = g)) as [->|N].
  - rewrite String.eqb_refl, bool_decide_eq_true_2 by reflexivity.
    simpl. now rewrite IH.
  - rewrite bool_decide_eq_false_2 by exact N.
    destruct (String.eqb _ _) eqn:E; [|exact IH].
    apply String.eqb_eq, class_name_inj in E. congruence.
Qed.

End MoviesPerGenre.

(** X14.  [print_movies_per_genre] prints, after its two heading lines,
    one line for each class that some movie of the list has, and for no
    other name: the line gives the name of the class and the number of
    movies of that class.  No class has two lines, and the lines are in
    the order of decreasing numbers. *)
Theorem X14_movies_per_genre (movies : list Movie) :
  let items := sorted_desc snd (genre_count movies) in
  print_movies_per_genre movies
  = ["
Movies per genre (sorted by count):"; dashes] ++ List.map genre_line items
  /\ (forall k n,
        In (k, n) items
        <-> exists g, k = class_name g
                      /\ n = Datatypes.length (of_genre g movies) /\ 0 < n)
  /\ List.NoDup (List.map fst items)
  /\ Sorted.StronglySorted (fun a b => snd b <= snd a) items.
Proof.
  intros items. split; [reflexivity|].
  destruct (sorted_desc_spec snd (genre_count movies)) as [P S].
  fold items in P, S.
  assert (Eg : genre_count movies
               = counter_of (List.map (fun m => class_name (class_ m)) movies)
                   []) by apply counter_of_map.
  destruct (counter_of_spec
              (List.map (fun m => class_name (class_ m)) movies) []
              (List.NoDup_nil _) (List.Forall_nil _))
    as (D & Pos & G & K).
  rewrite <- Eg in D, Pos, G, K.
  split; [|split; [|exact S]].
  - intros k n. rewrite <- P. split.
    + intros Hin.
      assert (Hk : In k (List.map fst (genre_count movies))).
      { change k with (fst (k, n)). now apply List.in_map. }
      destruct (K k Hk) as [[]|Hk'].
      apply List.in_map_iff in Hk'. destruct Hk' as (m & <- & _).
      exists (class_ m). split; [reflexivity|].
      pose proof (counter_get_In _ _ _ D Hin) as En.
      rewrite G, occurrences_class_name in En. simpl in En.
      split; [now symmetry|].
      rewrite List.Forall_forall in Pos. exact (Pos _ Hin).
    + intros (g & -> & -> & Hn).
      pose proof (G (class_name g)) as Hg.
      rewrite occurrences_class_name in Hg. simpl in Hg. rewrite <- Hg.
      apply counter_get_positive. rewrite Hg. exact Hn.
  - eapply Permutation.Permutation_NoDup; [|exact D].
    now apply Permutation.Permutation_map.
Qed.

(** ** The highest score, the shortest and the longest movies *)

Section MaxMin.

Lemma foldl_max_spec l : forall x,
  (x <= foldl Z.max x l)%Z
  /\ Forall (fun y => (y <= foldl Z.max x l)%Z) l
  /\ (foldl Z.max x l = x \/ In (foldl Z.max x l) l).
Proof.
  induction l as [|a l IH]; intros x; simpl.
  - split; [lia|]. split; [constructor | now left].
  - destruct (IH (Z.max x a)) as (H1 & H2 & H3).
    split; [lia|]. split; [constructor; [lia | exact H2]|].
    destruct H3 as [H3|H3]; [|now right; right].
    rewrite H3. destruct (Z.max_spec x a) as [[_ ->]|[_ ->]]; auto.
Qed.

Lemma foldl_min_spec l : forall x,
  (foldl Z.min x l <= x)%Z
  /\ Forall (fun y => (foldl Z.min x l <= y)%Z) l
  /\ (foldl Z.min x l = x \/ In (foldl Z.min x l) l).
Proof.
  induction l as [|a l IH]; intros x; simpl.
  - split; [lia|]. split; [constructor | now left].
  - destruct (IH (Z.min x a)) as (H1 & H2 & H3).
    split; [lia|]. split; [constructor; [lia | exact H2]|].
    destruct H3 as [H3|H3]; [|now right; right].
    rewrite H3. destruct (Z.min_spec x a) as [[_ ->]|[_ ->]]; auto.
Qed.


Lemma py_max_spec l :
  l <> [] ->
  exists h, py_max l = Some h /\ In h l /\ Forall (fun y => (y <= h)%Z) l.
Proof.
  destruct l as [|x l]; [congruence|]. intros _.
  destruct (foldl_max_spec l x) as (H1 & H2 & H3).
  exists (foldl Z.max x l). split; [reflexivity|].
  split; [destruct H3 as [->|H3]; [now left | now right] | now constructor].
Qed.

Lemma py_min_spec l :
  l <> [] ->
  exists h, py_min l = Some h /\ In h l /\ Forall (fun y => (h <= y)%Z) l.
Proof.
  destruct l as [|x l]; [congruence|]. intros _.
  destruct (foldl_min_spec l x) as (H1 & H2 & H3).
  exists (foldl Z.min x l). split; [reflexivity|].
  split; [destruct H3 as [->|H3]; [now left | now right] | now constructor].
Qed.

Lemma In_omap {A B} (f : A -> option B) l b :
  In b (omap f l) <-> exists a, In a l /\ f a = Some b.
Proof.
  rewrite <- list_elem_of_In, list_elem_of_omap.
  split; intros (a & H1 & H2); exists a; split; auto;
    now apply list_elem_of_In.
Qed.

End MaxMin.

Section HighestScore.

Lemma relevant_score_score m :
  relevant_score m = true -> exists s, score m = Some s.
Proof.
  unfold relevant_score, score. destruct (_score m); [eauto | discriminate].
Qed.

Lemma In_relevant_movies movies m :
  In m (relevant_movies movies) <-> In m movies /\ relevant_score m = true.
Proof. apply List.filter_In. Qed.

Lemma In_top_movies movies h m :
  In m (top_movies movies h)
  <-> In m movies /\ relevant_score m = true /\ score m = Some h.
Proof.
  unfold top_movies. rewrite List.filter_In, In_relevant_movies.
  rewrite bool_decide_eq_true. tauto.
Qed.

End HighestScore.

(** X15.  When some movie of the list has a relevant score,
    [print_highest_scoring_movies] finds a highest score: [max] is never
    applied to an empty sequence.  Every movie with a relevant score has
    a score, at most the highest one; the movies it lists are the movies
    with a relevant score whose score is the highest one, there is at
    least one, and each line gives the title, that score and the number
    of votes. *)
Theorem X15_highest_scoring_movies (movies : list Movie) (m0 : Movie) :
  In m0 movies -> relevant_score m0 = true ->
  exists h,
    highest_score movies = Some h
    /\ (forall m, In m movies -> relevant_score m = true ->
          exists s, score m = Some s /\ (s <= h)%Z)
    /\ (forall m, In m (top_movies movies h)
          <-> In m movies /\ relevant_score m = true /\ score m = Some h)
    /\ top_movies movies h <> []
    /\ print_highest_scoring_movies movies
       = Some (["
Highest score: " +:+ str_int h +:+ "%";
                "Number of movies with this score: "
                +:+ pretty (Datatypes.length (top_movies movies h));
                dashes]
               ++ List.map
                    (fun m => title m +:+ " (Score: " +:+ str_int h
                              +:+ "%, Votes: " +:+ str_opt_int (count m)
                              +:+ ")")
                    (top_movies movies h)).
Proof.
  intros Hin Hrel.
  assert (Hr : In m0 (relevant_movies movies))
    by now apply In_relevant_movies.
  destruct (relevant_score_score _ Hrel) as (s0 & Hs0).
  destruct (py_max_spec (omap score (relevant_movies movies)))
    as (h & Hh & Hi & Hle).
  { intros E. assert (X : In s0 (omap score (relevant_movies movies)))
      by (apply In_omap; eauto).
    rewrite E in X. destruct X. }
  exists h. split; [exact Hh|].
  split.
  { intros m Hm Rm. destruct (relevant_score_score _ Rm) as (s & Hs).
    exists s. split; [exact Hs|].
    rewrite List.Forall_forall in Hle. apply Hle, In_omap.
    exists m. split; [now apply In_relevant_movies | exact Hs]. }
  split; [apply In_top_movies|].
  split.
  { apply In_omap in Hi. destruct Hi as (m & Hm & Hs).
    apply In_relevant_movies in Hm. destruct Hm as [Hm Rm].
    intros E. assert (X : In m (top_movies movies h))
      by now apply In_top_movies.
    rewrite E in X. destruct X. }
  unfold print_highest_scoring_movies. fold (highest_score movies).
  destruct (relevant_movies movies) as [|a l] eqn:E; [destruct Hr|].
  unfold highest_score in *. rewrite E in *. rewrite Hh.
  f_equal. f_equal. apply List.map_ext_in.
  intros m Hm.
  apply In_top_movies in Hm. destruct Hm as (_ & _ & ->). reflexivity.
Qed.

Lemma X15_witness :
  exists m0,
    In m0 example_movies /\ relevant_score m0 = true
    /\ exists h, highest_score example_movies = Some h
                 /\ top_movies example_movies h <> [].
Proof.
  assert (H : exists m0, In m0 example_movies /\ relevant_score m0 = true)
    by (vm_compute; eexists; split; [left; reflexivity | reflexivity]).
  destruct H as (m0 & H1 & H2). exists m0.
  split; [exact H1|]. split; [exact H2|].
  destruct (X15_highest_scoring_movies example_movies m0 H1 H2)
    as (h & Hh & _ & _ & Ht & _).
  exists h. split; assumption.
Defined.

Section ShortestLongest.

Lemma In_movies_with_length movies m :
  In m (movies_with_length movies)
  <-> In m movies /\ exists l, length m = Some l.
Proof.
  unfold movies_with_length. rewrite List.filter_In, bool_decide_eq_true.
  split; intros [H1 H2]; (split; [exact H1|]).
  - destruct (length m); [eauto | congruence].
  - destruct H2 as (l & ->). discriminate.
Qed.

Lemma In_lengths movies l :
  In l (omap length (movies_with_length movies))
  <-> exists m, In m movies /\ length m = Some l.
Proof.
  rewrite In_omap. split; intros (m & H1 & H2); exists m.
  - apply In_movies_with_length in H1. tauto.
  - split; [apply In_movies_with_length; eauto | exact H2].
Qed.

Lemma movies_of_length_filter movies l :
  movies_of_length movies l
  = List.filter (fun m => bool_decide (length m = Some l)) movies.
Proof.
  unfold movies_of_length, movies_with_length.
  induction movies as [|m ms IH]; [reflexivity|].
  simpl. destruct (length m) as [x|] eqn:E.
  - rewrite bool_decide_eq_true_2 by discriminate. simpl. rewrite E.
    destruct (bool_decide (Some x = Some l)); now rewrite IH.
  - rewrite bool_decide_eq_false_2 by (intros X; now apply X).
    rewrite bool_decide_eq_false_2 by discriminate. exact IH.
Qed.

End ShortestLongest.

(** X16.  When some movie of the list has a length,
    [print_shortest_longest_movies] finds a least and a greatest length:
    [min] and [max] are never applied to an empty sequence.  The length
    of every movie that has one is between the two, each of the two is
    the length of some movie, and the two lists printed are the movies
    of the list, in its order, whose length is the least and the
    greatest one. *)
Theorem X16_shortest_and_longest_movies (movies : list Movie) (m0 : Movie)
    (l0 : Z) :
  In m0 movies -> length m0 = Some l0 ->
  exists lo hi,
    min_length movies = Some lo /\ max_length movies = Some hi
    /\ (forall m l, In m movies -> length m = Some l -> (lo <= l <= hi)%Z)
    /\ (exists m, In m movies /\ length m = Some lo)
    /\ (exists m, In m movies /\ length m = Some hi)
    /\ print_shortest_longest_movies movies
       = Some (["
SHORTEST movies (" +:+ str_int lo +:+ " minutes):"; dashes]
               ++ List.map length_line
                    (List.filter (fun m => bool_decide (length m = Some lo))
                       movies)
               ++ ["
LONGEST movies (" +:+ str_int hi +:+ " minutes):"; dashes]
               ++ List.map length_line
                    (List.filter (fun m => bool_decide (length m = Some hi))
                       movies)).
Proof.
  intros Hin Hl.
  assert (Hne : omap length (movies_with_length movies) <> []).
  { intros E. assert (X : In l0 (omap length (movies_with_length movies)))
      by (apply In_lengths; eauto).
    rewrite E in X. destruct X. }
  destruct (py_min_spec _ Hne) as (lo & Hlo & Ilo & Flo).
  destruct (py_max_spec _ Hne) as (hi & Hhi & Ihi & Fhi).
  exists lo, hi. split; [exact Hlo|]. split; [exact Hhi|].
  rewrite List.Forall_forall in Flo, Fhi.
  split.
  { intros m l Hm Lm.
    assert (X : In l (omap length (movies_with_length movies)))
      by (apply In_lengths; eauto).
    split; [now apply Flo | now apply Fhi]. }
  split; [now apply In_lengths|]. split; [now apply In_lengths|].
  unfold print_shortest_longest_movies.
  fold (min_length movies) (max_length movies).
  assert (Hw : In m0 (movies_with_length movies))
    by (apply In_movies_with_length; eauto).
  destruct (movies_with_length movies) as [|a r] eqn:E; [destruct Hw|].
  unfold min_length, max_length in *. rewrite E in *. rewrite Hlo, Hhi.
  now rewrite !movies_of_length_filter.
Qed.

Lemma X16_witness :
  exists m0 l0,
    In m0 example_movies /\ length m0 = Some l0
    /\ exists lo hi, min_length example_movies = Some lo
                     /\ max_length example_movies = Some hi
                     /\ (lo <= l0 <= hi)%Z.
Proof.
  assert (H : exists m0 l0, In m0 example_movies /\ length m0 = Some l0)
    by (vm_compute; do 2 eexists; split; [left; reflexivity | reflexivity]).
  destruct H as (m0 & l0 & H1 & H2). exists m0, l0.
  split; [exact H1|]. split; [exact H2|].
  destruct (X16_shortest_and_longest_movies example_movies m0 l0 H1 H2)
    as (lo & hi & Hlo & Hhi & Hb & _).
  exists lo, hi. split; [exact Hlo|]. split; [exact Hhi|].
  exact (Hb m0 l0 H1 H2).
Defined.

(** ** The most active directors *)

Section MostActiveDirectors.

Lemma director_credits_grows w w1 movies :
  grows w w1 -> Forall (movie_in w) movies ->
  director_credits w1 movies = director_credits w movies.
Proof.
  intros (_ & _ & _ & L) F. unfold director_credits. f_equal.
  apply List.map_ext_in. intros m Hm. rewrite List.Forall_forall in F.
  unfold list_at. now rewrite (L _ (F m Hm)).
Qed.

Lemma count_directors_spec movies : forall c w,
  Forall (movie_in w) movies ->
  exists w',
    count_directors movies c w
    = (Return (counter_of (director_credits w movies) c), w')
    /\ evolves w w'
    /\ _ratings w' = _ratings w /\ _persons w' = _persons w.
Proof.
  induction movies as [|m ms IH]; intros c w F.
  - exists w. split; [reflexivity|]. split; [apply evolves_refl | auto].
  - inversion F as [|? ? Hm Hms]; subst.
    cbn [count_directors]. pose proof (evolves_directors m w) as E.
    rewrite directors_spec in E. cbn [snd] in E.
    rewrite (bind_Return _ _ _ _ _ (directors_spec m w)).
    set (w1 := {| _ratings := _ratings w; _persons := _persons w;
                  lists := <[next_oid w := list_at w (_directors m)]>
                             (lists w);
                  next_oid := S (next_oid w) |}) in *.
    unfold bind at 1. unfold read.
    assert (La : list_at w1 (next_oid w) = list_at w (_directors m))
      by (unfold list_at, w1; simpl; now rewrite lookup_insert_eq).
    rewrite La.
    assert (F1 : Forall (movie_in w1) ms).
    { eapply List.Forall_impl; [|exact Hms].
      unfold movie_in, w1. simpl. intros; lia. }
    destruct (IH (foldl (fun c director => counter_incr (full_name director) c)
                    c (list_at w (_directors m))) w1 F1)
      as (w' & R & V & Hr & Hp).
    exists w'. rewrite R.
    split.
    + f_equal. f_equal. unfold director_credits at 2.
      cbn [List.map List.concat]. rewrite counter_of_app.
      rewrite counter_of_map.
      fold (director_credits w ms).
      now rewrite (director_credits_grows w w1 ms (proj1 E) Hms).
    + split; [now apply (evolves_trans w w1)|].
      split; [now rewrite Hr | now rewrite Hp].
Qed.



End MostActiveDirectors.



(** ** The scary horror movies *)

Section ScaryHorror.

Lemma filter_M_is_scary w movies :
  _ratings w !! "PG" = Some PG ->
  filter_M is_scary movies w
  = (Return (List.filter (fun m => Rating.gt (rating m) PG) movies), w).
Proof.
  intros H. induction movies as [|m ms IH]; [reflexivity|].
  cbn [filter_M List.filter].
  rewrite (bind_Return _ _ _ _ _ (is_scary_spec m w H)).
  rewrite (bind_Return _ _ _ _ _ IH). reflexivity.
Qed.

Lemma gt_PG_standard r :
  r ∈ standard_ratings ->
  Rating.gt r PG = bool_decide (code r = "PG-13" \/ code r = "R").
Proof.
  intros Hr. unfold standard_ratings in Hr.
  repeat (apply elem_of_cons in Hr as [->|Hr]);
    [reflexivity .. | now apply elem_of_nil in Hr].
Qed.

End ScaryHorror.

(** X18.  In a world where the code "PG" gives the predefined rating,
    and for movies that have one of the six predefined ratings,
    [print_scary_horror_movies] returns and leaves the world as it is.
    With no horror movie it prints the one line that says so; otherwise
    the movies it counts and lists are the horror movies, in the order
    of the list, whose rating code is "PG-13" or "R".  A horror movie
    rated "NC-17" is never among them. *)
Theorem X18_scary_horror_movies (movies : list Movie) (w : world) :
  _ratings w !! "PG" = Some PG ->
  Forall (fun m => rating m ∈ standard_ratings) movies ->
  let scary := List.filter rated_PG13_or_R (horror_movies movies) in
  print_scary_horror_movies movies w
  = (Return
       match horror_movies movies with
       | [] => ["
No horror movies found."]
       | _ :: _ =>
           ["
Scary horror movies: " +:+ pretty (Datatypes.length scary)
            +:+ " out of "
            +:+ pretty (Datatypes.length (horror_movies movies))
            +:+ " horror movies"; dashes]
           ++ List.map scary_line scary
       end, w)
  /\ Forall (fun m => code (rating m) <> "NC-17") scary.
Proof.
  intros H F scary.
  assert (E : List.filter (fun m => Rating.gt (rating m) PG)
                (horror_movies movies) = scary).
  { unfold scary. apply List.filter_ext_in. intros m Hm.
    apply List.filter_In in Hm. destruct Hm as [Hm _].
    rewrite List.Forall_forall in F. now apply gt_PG_standard, F. }
  split.
  - unfold print_scary_horror_movies.
    destruct (horror_movies movies) as [|a l] eqn:Eh; [reflexivity|].
    rewrite (bind_Return _ _ _ _ _ (filter_M_is_scary w (a :: l) H)).
    now rewrite E.
  - apply List.Forall_forall. intros m Hm. unfold scary in Hm.
    apply List.filter_In in Hm. destruct Hm as [_ Hm].
    apply bool_decide_eq_true in Hm. intros X. rewrite X in Hm.
    destruct Hm; discriminate.
Qed.

Lemma X18_witness :
  _ratings example_world !! "PG" = Some PG
  /\ Forall (fun m => rating m ∈ standard_ratings) example_movies
  /\ List.map title (horror_movies example_movies)
     = ["Second"; "Third"; "Fifth"]
  /\ fst (print_scary_horror_movies example_movies example_world)
     = Return ["
Scary horror movies: 2 out of 3 horror movies"; dashes;
               "Second (Rating: Rating(R))"; "Fifth (Rating: Rating(PG-13))"].
Proof.
  assert (H : _ratings example_world !! "PG" = Some PG)
    by (vm_compute; reflexivity).
  assert (F : Forall (fun m => rating m ∈ standard_ratings) example_movies)
    by (vm_compute; repeat constructor).
  split; [exact H|]. split; [exact F|]. split; [vm_compute; reflexivity|].
  rewrite (proj1 (X18_scary_horror_movies example_movies example_world H F)).
  vm_compute. reflexivity.
Defined.

(** ** The distribution of the scores *)

Section ScoreDistribution.

Lemma score_count_from movies s : forall c : gmap Z nat,
  default 0
    (foldl (fun c m =>
              match score m with
              | Some s => <[s := S (default 0 (c !! s))]> c
              | None => c
              end) c movies !! s)
  = default 0 (c !! s) + Datatypes.length (with_score s movies).
Proof.
  induction movies as [|m ms IH]; intros c; simpl; [lia|].
  rewrite IH. destruct (score m) as [x|] eqn:E.
  - destruct (decide (x = s)) as [->|N].
    + rewrite lookup_insert_eq, bool_decide_eq_true_2 by reflexivity.
      simpl. lia.
    + rewrite lookup_insert_ne by exact N.
      rewrite bool_decide_eq_false_2 by congruence. reflexivity.
  - rewrite bool_decide_eq_false_2 by discriminate. reflexivity.
Qed.

Lemma score_count_spec movies s :
  default 0 (score_count movies !! s)
  = Datatypes.length (with_score s movies).
Proof.
  unfold score_count. rewrite score_count_from, lookup_empty. reflexivity.
Qed.

Lemma print_score_distribution_lines movies :
  print_score_distribution movies
  = ["
Score distribution (0-100%):"; dashes]
    ++ List.map (distribution_line movies) range_101.
Proof.
  unfold print_score_distribution. f_equal.
  apply List.map_ext. intros s. unfold distribution_line.
  now rewrite score_count_spec.
Qed.

Lemma In_range_101 s : In s range_101 -> (0 <= s <= 100)%Z.
Proof.
  unfold range_101. intros Hs.
  apply list_elem_of_In, list_elem_of_fmap in Hs.
  destruct Hs as (n & -> & Hn). apply list_elem_of_In, in_seq in Hn. lia.
Qed.

End ScoreDistribution.

(** X19.  [print_score_distribution] prints 103 lines: its two heading
    lines, then one line for each score from 0 to 100, in that order.
    The line of a score gives the score, right-aligned in three places,
    and the number of movies of the list that have that score. *)
Theorem X19_score_distribution (movies : list Movie) (n : nat) :
  n <= 100 ->
  Datatypes.length (print_score_distribution movies) = 103
  /\ print_score_distribution movies !! (2 + n)
     = Some (rjust 3 (str_int (Z.of_nat n)) +:+ "%: "
             +:+ pretty
                   (Datatypes.length
                      (List.filter
                         (fun m => bool_decide (score m = Some (Z.of_nat n)))
                         movies))).
Proof.
  intros Hn. rewrite print_score_distribution_lines. split; [reflexivity|].
  change (List.map (distribution_line movies) range_101)
    with (distribution_line movies <$> range_101).
  rewrite lookup_app_r by (simpl; lia).
  replace (2 + n - Datatypes.length ["
Score distribution (0-100%):"; dashes]) with n by (simpl; lia).
  rewrite list_lookup_fmap. unfold range_101.
  rewrite list_lookup_fmap, lookup_seq_lt by lia. reflexivity.
Qed.

Lemma X19_witness :
  67 <= 100
  /\ print_score_distribution example_movies !! 69 = Some " 67%: 2".
Proof.
  assert (H : 67 <= 100) by lia.
  split; [exact H|].
  transitivity
    (Some (rjust 3 (str_int (Z.of_nat 67)) +:+ "%: "
           +:+ pretty
                 (Datatypes.length
                    (List.filter
                       (fun m => bool_decide (score m = Some (Z.of_nat 67)))
                       example_movies)))).
  - exact (proj2 (X19_score_distribution example_movies 67 H)).
  - vm_compute. reflexivity.
Defined.

(** X20.  A movie without a score, or with a score below 0 or above
    100, does not show in the distribution: the lines printed with it
    are the lines printed without it. *)
Theorem X20_scores_outside_the_range (movies : list Movie) (m : Movie) :
  (forall s, score m = Some s -> (s < 0 \/ 100 < s)%Z) ->
  print_score_distribution (m :: movies) = print_score_distribution movies.
Proof.
  intros H. rewrite !print_score_distribution_lines. f_equal.
  apply List.map_ext_in. intros s Hs. apply In_range_101 in Hs.
  unfold distribution_line, with_score.
  simpl. destruct (score m) as [x|] eqn:E.
  - rewrite bool_decide_eq_false_2; [reflexivity|].
    intros [= ->]. destruct (H s eq_refl); lia.
  - rewrite bool_decide_eq_false_2 by discriminate. reflexivity.
Qed.

Lemma X20_witness :
  let m := built_movie (example_row [("audience_rating", "-3")]) Comedy
             "m/1000640-all_of_me" "All of Me" PG 0 in
  score m = Some (-3)%Z
  /\ print_score_distribution (m :: example_movies)
     = print_score_distribution example_movies.
Proof.
  intros m.
  assert (E : score m = Some (-3)%Z) by (vm_compute; reflexivity).
  split; [exact E|].
  apply (X20_scores_outside_the_range example_movies m).
  intros s Hs. rewrite E in Hs. injection Hs as <-. lia.
Defined.

(** ** Option 11 *)

Section Option11.

Lemma listed_11_eq m :
  listed_11 m
  = match release_date m, length m with
    | Some d, Some l => in_period d && (l <? 120)%Z
    | _, _ => false
    end.
Proof. reflexivity. Qed.

Lemma line_11_eq m d :
  release_date m = Some d -> line_11 m = option_11_line m d.
Proof. unfold line_11. now intros ->. Qed.

Lemma option_11_loop_ok movies : forall found,
  Forall (fun m => fatal_11 m = false) movies ->
  option_11_loop movies found
  = (List.map line_11 (List.filter listed_11 movies)
     ++ (if found || existsb listed_11 movies then []
         else ["No movies found that match these criteria."]),
     None).
Proof.
  induction movies as [|m ms IH]; intros found H.
  - simpl. rewrite orb_false_r. reflexivity.
  - inversion H as [|? ? Hm Hms]; subst.
    cbn [option_11_loop List.filter existsb].
    unfold fatal_11 in Hm. rewrite (listed_11_eq m).
    destruct (release_date m) as [d|] eqn:Ed; [|discriminate].
    change (datetime_le start_date d && datetime_le d end_date)
      with (in_period d).
    destruct (length m) as [l|] eqn:El.
    + destruct (in_period d); cbn [andb orb].
      * destruct (l <? 120)%Z; cbn [andb orb fst snd List.map app].
        -- rewrite (IH true Hms), orb_true_r, (line_11_eq m d Ed).
           reflexivity.
        -- rewrite (IH found Hms). reflexivity.
      * rewrite (IH found Hms). reflexivity.
    + rewrite Hm. cbn [andb orb]. rewrite (IH found Hms).
      reflexivity.
Qed.

Lemma option_11_loop_fatal pre : forall found m rest,
  Forall (fun m => fatal_11 m = false) pre ->
  fatal_11 m = true ->
  option_11_loop (pre ++ m :: rest) found
  = (List.map line_11 (List.filter listed_11 pre), Some (error_11 m)).
Proof.
  induction pre as [|a pre IH]; intros found m rest H Hf.
  - simpl. unfold fatal_11 in Hf. unfold error_11.
    destruct (release_date m) as [d|] eqn:Ed; [|reflexivity].
    change (datetime_le start_date d && datetime_le d end_date)
      with (in_period d).
    destruct (length m) as [l|] eqn:El; [discriminate|].
    rewrite Hf. reflexivity.
  - inversion H as [|? ? Ha Hpre]; subst.
    cbn [option_11_loop List.filter app].
    unfold fatal_11 in Ha. rewrite (listed_11_eq a).
    destruct (release_date a) as [d|] eqn:Ed; [|discriminate].
    change (datetime_le start_date d && datetime_le d end_date)
      with (in_period d).
    destruct (length a) as [l|] eqn:El.
    + destruct (in_period d); cbn [andb].
      * destruct (l <? 120)%Z; cbn [fst snd List.map].
        -- now rewrite (IH true m rest Hpre Hf), (line_11_eq a d Ed).
        -- now rewrite (IH found m rest Hpre Hf).
      * now rewrite (IH found m rest Hpre Hf).
    + rewrite Ha. now rewrite (IH found m rest Hpre Hf).
Qed.

End Option11.

(** X21.  When every movie of the list has a release date, and a length
    if that date is in the period from 1 April 2000 to 1 April 2005,
    both days included, [option_11_filter_movies] raises nothing.  After
    its heading it prints one line for each movie released in the
    period and shorter than 120 minutes, in the order of the list, and
    the line that no movie was found exactly when there is none. *)
Theorem X21_option_11_without_error (movies : list Movie) :
  Forall (fun m => fatal_11 m = false) movies ->
  option_11_filter_movies movies
  = (header_11
     :: match List.filter listed_11 movies with
        | [] => ["No movies found that match these criteria."]
        | listed => List.map line_11 listed
        end,
     None).
Proof.
  intros H. unfold option_11_filter_movies.
  rewrite (option_11_loop_ok movies false H). simpl. f_equal. f_equal.
  clear H. induction movies as [|m ms IH]; [reflexivity|].
  simpl. destruct (listed_11 m); simpl.
  - now rewrite app_nil_r.
  - exact IH.
Qed.

Lemma X21_witness :
  Forall (fun m => fatal_11 m = false) example_movies
  /\ option_11_filter_movies example_movies
     = ([header_11; "- Second (93 min, 2001-02-03)";
         "- Third (7 min, 2005-04-01)"; "- Fourth (119 min, 2000-04-01)"],
        None).
Proof.
  assert (F : Forall (fun m => fatal_11 m = false) example_movies)
    by (vm_compute; repeat constructor).
  split; [exact F|].
  rewrite (X21_option_11_without_error example_movies F).
  vm_compute. reflexivity.
Defined.

(** X22.  A movie without a release date, or one released in the period
    that has no length, makes [option_11_filter_movies] raise a
    [TypeError].  At the first such movie of the list the heading and
    the lines of the movies before it have been printed; nothing is
    printed for the movies after it, and the line that no movie was
    found is not printed either. *)
Theorem X22_option_11_stops_at_the_first_error (pre : list Movie)
    (m : Movie) (rest : list Movie) :
  Forall (fun m => fatal_11 m = false) pre ->
  fatal_11 m = true ->
  option_11_filter_movies (pre ++ m :: rest)
  = (header_11 :: List.map line_11 (List.filter listed_11 pre),
     Some (error_11 m)).
Proof.
  intros H Hf. unfold option_11_filter_movies.
  now rewrite (option_11_loop_fatal pre false m rest H Hf).
Qed.

Lemma X22_witness :
  let m := built_movie (example_row [("original_release_date", "?")]) Comedy
             "m/1000640-all_of_me" "All of Me" PG 0 in
  Forall (fun m => fatal_11 m = false) example_movies
  /\ fatal_11 m = true
  /\ snd (option_11_filter_movies (example_movies ++ m :: example_movies))
     = Some (TypeError "strptime() argument 1 must be str, not None").
Proof.
  intros m.
  assert (F : Forall (fun m => fatal_11 m = false) example_movies)
    by (vm_compute; repeat constructor).
  assert (Hf : fatal_11 m = true) by (vm_compute; reflexivity).
  split; [exact F|]. split; [exact Hf|].
  rewrite (X22_option_11_stops_at_the_first_error
             example_movies m example_movies F Hf).
  vm_compute. reflexivity.
Defined.

(** ** The menu, after the catalogue is loaded *)

Section MenuAfterLoading.

Lemma world0_rating_standard rc r :
  _ratings world0 !! rc = Some r -> r ∈ standard_ratings.
Proof.
  rewrite world0_ratings. unfold standard_ratings. intros H.
  repeat match type of H with
         | <[?k := _]> _ !! _ = _ =>
             destruct (decide (k = rc)) as [<-|N];
             [rewrite lookup_insert_eq in H; injection H as <-; set_solver
             |rewrite lookup_insert_ne in H by exact N; clear N]
         end.
  rewrite lookup_empty in H. discriminate H.
Qed.

Lemma loaded_from_rating w row m :
  loaded_from w row m -> exists rc, _ratings w !! rc = Some (rating m).
Proof.
  intros (rt & t & rc & g & r & _ & Hr & _ & E). exists rc.
  rewrite E. exact Hr.
Qed.

Lemma print_most_active_directors_returns movies w :
  Forall (movie_in w) movies ->
  exists lines w', print_most_active_directors movies w = (Return lines, w').
Proof.
  intros F.
  destruct (count_directors_spec movies [] w F) as (w' & R & _).
  unfold print_most_active_directors. rewrite (bind_Return _ _ _ _ _ R).
  destruct (counter_of _ _); unfold ret; eauto.
Qed.

Lemma print_scary_horror_movies_returns movies w :
  _ratings w !! "PG" = Some PG ->
  exists lines, print_scary_horror_movies movies w = (Return lines, w).
Proof.
  intros H. unfold print_scary_horror_movies.
  destruct (horror_movies movies) as [|a l]; [unfold ret; eauto|].
  rewrite (bind_Return _ _ _ _ _ (filter_M_is_scary w (a :: l) H)).
  unfold ret. eauto.
Qed.

End MenuAfterLoading.

(** X23.  What [main] does first: the catalogue is loaded in the world
    that the import of the modules leaves.  Whatever the rows are, every
    movie loaded has one of the six predefined ratings and a list of
    directors that exists, and "PG" still gives the predefined rating.
    So the options of the menu that read the directors and the ratings,
    [print_most_active_directors] and [print_scary_horror_movies],
    return on the movies loaded: they never raise. *)
Theorem X23_menu_after_loading (rows : list (gmap string string)) :
  exists movies errors w,
    load_movies_loop rows [] 0 world0 = (Return (movies, errors), w)
    /\ Forall (movie_in w) movies
    /\ Forall (fun m => rating m ∈ standard_ratings) movies
    /\ _ratings w !! "PG" = Some PG
    /\ (exists lines w',
          print_most_active_directors movies w = (Return lines, w'))
    /\ (exists lines,
          print_scary_horror_movies movies w = (Return lines, w)).
Proof.
  destruct (load_movies_loop_spec rows [] 0 world0)
    as (movies & w & E & F & _ & R & I).
  exists movies, (0 + Datatypes.length (List.filter (rejected world0) rows)), w.
  pose proof (I invariant_world0) as Hin.
  assert (Hpg : _ratings w !! "PG" = Some PG)
    by (rewrite R; vm_compute; reflexivity).
  split; [exact E|]. split; [exact Hin|].
  split; [|split; [exact Hpg|split]].
  - clear E I Hin. induction F as [|row m rs ms Hm _ IH]; constructor.
    + destruct (loaded_from_rating _ _ _ Hm) as (rc & Hr).
      exact (world0_rating_standard _ _ Hr).
    + exact IH.
  - now apply print_most_active_directors_returns.
  - now apply print_scary_horror_movies_returns.
Qed.

(** X24.  [print_highest_scoring_movies] and
    [print_shortest_longest_movies] return for every list of movies:
    the [max] and the [min] in them are never applied to an empty
    sequence, because a movie with a relevant score has a score, and the
    lengths are taken of the movies that have one. *)
Theorem X24_max_and_min_never_raise (movies : list Movie) :
  is_Some (print_highest_scoring_movies movies)
  /\ is_Some (print_shortest_longest_movies movies).
Proof.
  split.
  - unfold print_highest_scoring_movies, highest_score.
    destruct (relevant_movies movies) as [|a l] eqn:E; [eauto|].
    assert (Ha : In a (relevant_movies movies)) by (rewrite E; now left).
    apply In_relevant_movies in Ha. destruct Ha as [_ Ha].
    destruct (relevant_score_score _ Ha) as (s & Hs).
    destruct (py_max_spec (omap score (a :: l))) as (h & -> & _); [|eauto].
    intros X. assert (Y : In s (omap score (a :: l)))
      by (apply In_omap; exists a; split; [now left | exact Hs]).
    rewrite X in Y. destruct Y.
  - unfold print_shortest_longest_movies, min_length, max_length.
    destruct (movies_with_length movies) as [|a l] eqn:E; [eauto|].
    assert (Ha : In a (movies_with_length movies)) by (rewrite E; now left).
    apply In_movies_with_length in Ha. destruct Ha as [_ (x & Hx)].
    assert (Hne : omap length (a :: l) <> []).
    { intros X. assert (Y : In x (omap length (a :: l)))
        by (apply In_omap; exists a; split; [now left | exact Hx]).
      rewrite X in Y. destruct Y. }
    destruct (py_min_spec _ Hne) as (lo & -> & _).
    destruct (py_max_spec _ Hne) as (hi & -> & _). eauto.
Qed.
